(** * Rich-text renderer of astrbot_plugin_freecmd (image_generator.py)

    A shallow embedding of the markup parser [_parse_rich_text], the glyph
    compositor [_draw_glyph] and the layout loop [draw_text], with the
    properties of the specification stated and settled against them.

    Conventions of the embedding:
    - a Python [str] is a [string]; its characters are [ascii] code points;
    - a Python [int] is a [Z]; a Python [float] (and a numpy float64) is a
      [spec_float] of the binary64 format, computed with the operations of
      [SpecFloat] at precision 53 and maximal exponent 1024;
    - an exception that leaves a function is the result [None];
    - the built-ins [int()] and [float()] and the FreeType face are not code
      of this repository: they are parameters ([PyBuiltins], [Face]). *)

From Stdlib Require Import ZArith Ascii String List Bool Lia QArith Qabs Qround Qpower.
From Stdlib Require Import Floats.SpecFloat.
From stdpp Require Import base tactics option list.

Local Open Scope string_scope.
Local Open Scope Z_scope.

(* ===================================================================== *)
(** * Python string primitives used by the source *)
(* ===================================================================== *)

Module PyStr.

(** [s.startswith(p)] *)
Fixpoint startswith (p s : string) : bool :=
  match p with
  | EmptyString => true
  | String a p' =>
      match s with
      | String b s' => Ascii.eqb a b && startswith p' s'
      | EmptyString => false
      end
  end.

(** the last character of [s], if any *)
Fixpoint last_char (s : string) : option ascii :=
  match s with
  | EmptyString => None
  | String c EmptyString => Some c
  | String _ s' => last_char s'
  end.

(** [s.endswith(c)] for a one-character suffix [c] *)
Definition endswith_char (c : ascii) (s : string) : bool :=
  match last_char s with
  | Some d => Ascii.eqb c d
  | None => false
  end.

(** [s[:-1]] *)
Fixpoint drop_last (s : string) : string :=
  match s with
  | EmptyString => EmptyString
  | String _ EmptyString => EmptyString
  | String c s' => String c (drop_last s')
  end.

(** [s[1:-1]] *)
Definition strip_ends (s : string) : string :=
  match s with
  | EmptyString => EmptyString
  | String _ s' => drop_last s'
  end.

(** [s.lstrip(c)] for a one-character set *)
Fixpoint lstrip_char (c : ascii) (s : string) : string :=
  match s with
  | String d s' => if Ascii.eqb c d then lstrip_char c s' else s
  | EmptyString => EmptyString
  end.

(** [s[i:i+n]] for [0 <= i] (a slice past the end is cut short) *)
Definition slice (i n : nat) (s : string) : string := String.substring i n s.

(** cut [s] at the first occurrence of [c]: the text before it and the
    text after it; [None] when [c] does not occur *)
Fixpoint break_at (c : ascii) (s : string) : option (string * string) :=
  match s with
  | EmptyString => None
  | String d s' =>
      if Ascii.eqb c d then Some (EmptyString, s')
      else match break_at c s' with
           | Some (a, b) => Some (String d a, b)
           | None => None
           end
  end.

(** [a, b = s.split(sep, 1)]: unpacking fails (ValueError) when [sep]
    does not occur, because the list then has one element *)
Definition split_once (sep : ascii) (s : string) : option (string * string) :=
  break_at sep s.

(** [s.replace(a1 a2, b)] for a two-character pattern and a
    one-character replacement, scanning left to right *)
Fixpoint replace2 (a1 a2 b : ascii) (s : string) : string :=
  match s with
  | EmptyString => EmptyString
  | String c s' =>
      match s' with
      | String d s'' =>
          if Ascii.eqb c a1 && Ascii.eqb d a2
          then String b (replace2 a1 a2 b s'')
          else String c (replace2 a1 a2 b s')
      | EmptyString => s
      end
  end.

End PyStr.

(* ===================================================================== *)
(** * The tokenizer: [re.split(r'(\[/?(?:color|size|spacing)[^\]]*\])', text)] *)
(* ===================================================================== *)

Module Tokenizer.

Definition lbracket : ascii := "["%char.
Definition rbracket : ascii := "]"%char.
Definition slash : ascii := "/"%char.

(** the alternation [(?:color|size|spacing)], tried in this order *)
Definition keywords : list string := ["color"; "size"; "spacing"].

(** remove the prefix [p] from [s] *)
Fixpoint strip_prefix (p s : string) : option string :=
  match p, s with
  | EmptyString, _ => Some s
  | String a p', String b s' => if Ascii.eqb a b then strip_prefix p' s' else None
  | String _ _, EmptyString => None
  end.

(** the first keyword of the alternation that [s] starts with, and what
    follows it *)
Fixpoint strip_keyword (kws : list string) (s : string) : option (string * string) :=
  match kws with
  | [] => None
  | k :: kws' =>
      match strip_prefix k s with
      | Some r => Some (k, r)
      | None => strip_keyword kws' s
      end
  end.

(** [[^\]]*\]]: the longest run free of ']' followed by ']' *)
Definition match_body (s : string) : option (string * string) :=
  match PyStr.break_at rbracket s with
  | Some (a, b) => Some (a ++ String rbracket EmptyString, b)
  | None => None
  end.

(** [/?(?:color|size|spacing)[^\]]*\]] after the opening bracket.  The
    optional '/' is greedy; giving it back never helps, as no keyword
    starts with '/'. *)
Definition match_after_bracket (s : string) : option (string * string) :=
  let '(sl, s1) :=
    match s with
    | String c s' => if Ascii.eqb c slash then (String slash EmptyString, s') else (EmptyString, s)
    | EmptyString => (EmptyString, s)
    end in
  match strip_keyword keywords s1 with
  | Some (k, r) =>
      match match_body r with
      | Some (b, rest) => Some (sl ++ k ++ b, rest)
      | None => None
      end
  | None => None
  end.

(** the tag pattern anchored at the start of [s]: the matched text and
    the rest of [s] *)
Definition match_tag (s : string) : option (string * string) :=
  match s with
  | String c s' =>
      if Ascii.eqb c lbracket then
        match match_after_bracket s' with
        | Some (m, rest) => Some (String lbracket m, rest)
        | None => None
        end
      else None
  | EmptyString => None
  end.

(** the scan of [re.split] with one capture group: [lit] is the literal
    text gathered since the last match; at each position the pattern is
    tried, the leftmost match wins and the scan resumes after it.  Every
    round consumes a character, so [fuel] above the length of [s] is
    never used up. *)
Fixpoint split_scan (fuel : nat) (lit s : string) : list string :=
  match fuel with
  | O => [lit ++ s]
  | S fuel' =>
      match match_tag s with
      | Some (m, rest) => lit :: m :: split_scan fuel' EmptyString rest
      | None =>
          match s with
          | EmptyString => [lit]
          | String c s' => split_scan fuel' (lit ++ String c EmptyString) s'
          end
      end
  end.

Definition re_split (text : string) : list string :=
  split_scan (S (String.length text)) EmptyString text.

(** the pattern matches somewhere in [s] *)
Fixpoint contains_tag (s : string) : bool :=
  match match_tag s with
  | Some _ => true
  | None =>
      match s with
      | EmptyString => false
      | String _ s' => contains_tag s'
      end
  end.

(** [t] is, as a whole, one match of the pattern *)
Definition is_markup_tag (t : string) : bool :=
  match match_tag t with
  | Some (m, EmptyString) => String.eqb m t
  | _ => false
  end.

End Tokenizer.

(* ===================================================================== *)
(** * binary64 arithmetic *)
(* ===================================================================== *)

Module F64.

Definition prec : Z := 53.
Definition emax : Z := 1024.

Abbreviation float := spec_float.

Definition mul : float -> float -> float := SFmul prec emax.
Definition add : float -> float -> float := SFadd prec emax.
Definition sub : float -> float -> float := SFsub prec emax.
Definition div : float -> float -> float := SFdiv prec emax.

(** conversion of an integer, rounded to nearest even; too large an
    integer gives an infinity here (Python raises OverflowError, numpy
    gives inf: either way no integer comes back from [trunc]) *)
Definition of_Z (n : Z) : float := binary_normalize prec emax n 0 false.

(** the rational value of a finite float *)
Definition to_Q (f : float) : option Q :=
  match f with
  | S754_zero _ => Some 0%Q
  | S754_finite s m e =>
      let mag := (inject_Z (Z.pos m) * Qpower 2 e)%Q in
      Some (if s then Qopp mag else mag)
  | _ => None
  end.

(** truncation toward zero, as [int(x)] on a Python float and as the C
    conversion behind [astype]; [None] for an infinity or a NaN *)
Definition trunc (f : float) : option Z :=
  match f with
  | S754_zero _ => Some 0
  | S754_finite s m e =>
      let mag := if 0 <=? e then Z.shiftl (Z.pos m) e else Z.shiftr (Z.pos m) (- e) in
      Some (if s then - mag else mag)
  | _ => None
  end.

End F64.

(* ===================================================================== *)
(** * Styles, segments and the markup parser *)
(* ===================================================================== *)

(** The style dictionary: keys 'color', 'font_size' and 'spacing'. *)
Record Style := mkStyle {
  color : string;
  font_size : Z;
  spacing : F64.float
}.

(** A segment dictionary: keys 'text' and 'style'. *)
Record Segment := mkSegment {
  text : string;
  style : Style
}.

Definition set_color (v : string) (st : Style) : Style :=
  {| color := v; font_size := font_size st; spacing := spacing st |}.
Definition set_font_size (v : Z) (st : Style) : Style :=
  {| color := color st; font_size := v; spacing := spacing st |}.
Definition set_spacing (v : F64.float) (st : Style) : Style :=
  {| color := color st; font_size := font_size st; spacing := v |}.

(** The built-ins [int(s, base)] and [float(s)] of Python; [None] stands
    for ValueError. *)
Class PyBuiltins := {
  py_int : Z -> string -> option Z;
  py_float : string -> option F64.float
}.

Section Parser.

Context {B : PyBuiltins}.

(** The loop state of [_parse_rich_text]: [style_stack] in Python order
    (base style first, active style last) and the segments emitted so
    far. *)
Record PState := mkPState {
  style_stack : list Style;
  segments : list Segment
}.

(** [style_stack[-1]]; IndexError on an empty list *)
Definition top (stack : list Style) : option Style := last stack.

(** [style_stack.pop()] *)
Definition pop (stack : list Style) : list Style := removelast stack.

Definition is_tag (part : string) : bool :=
  PyStr.startswith "[" part && PyStr.endswith_char "]" part.

Definition is_closing (tag_content : string) : bool :=
  PyStr.startswith "/" tag_content.

Definition emit (part : string) (cur : Style) (st : PState) : PState :=
  {| style_stack := style_stack st;
     segments := segments st ++ [mkSegment part cur] |}.

Definition push (new_style : Style) (st : PState) : PState :=
  {| style_stack := style_stack st ++ [new_style];
     segments := segments st |}.

(** The body of the [try]: [Some] is the style that gets pushed, [None]
    is the ValueError caught by the [except] clause. *)
Definition apply_tag (tag_content : string) (new_style : Style) : option Style :=
  match PyStr.split_once "=" tag_content with
  | None => None
  | Some (tag_type, value) =>
      if String.eqb tag_type "color" then Some (set_color value new_style)
      else if String.eqb tag_type "size" then
        match py_int 10 value with
        | Some n => Some (set_font_size n new_style)
        | None => None
        end
      else if String.eqb tag_type "spacing" then
        match py_float value with
        | Some f => Some (set_spacing f new_style)
        | None => None
        end
      else Some new_style
  end.

(** One round of [for part in parts]. *)
Definition parse_part (st : PState) (part : string) : option PState :=
  if String.eqb part "" then Some st
  else if is_tag part then
    let tag_content := PyStr.strip_ends part in
    if is_closing tag_content then
      if (1 <? Z.of_nat (length (style_stack st))) then
        Some {| style_stack := pop (style_stack st); segments := segments st |}
      else Some st
    else
      match top (style_stack st) with
      | None => None
      | Some new_style =>
          match apply_tag tag_content new_style with
          | Some pushed => Some (push pushed st)
          | None => Some (emit part new_style st)
          end
      end
  else
    match top (style_stack st) with
    | None => None
    | Some cur => Some (emit part cur st)
    end.

Fixpoint parse_parts (parts : list string) (st : PState) : option PState :=
  match parts with
  | [] => Some st
  | part :: parts' =>
      match parse_part st part with
      | Some st' => parse_parts parts' st'
      | None => None
      end
  end.

Definition initial_state (default_options : Style) : PState :=
  {| style_stack := [default_options]; segments := [] |}.

Definition _parse_rich_text (txt : string) (default_options : Style)
  : option (list Segment) :=
  match parse_parts (Tokenizer.re_split txt) (initial_state default_options) with
  | Some st => Some (segments st)
  | None => None
  end.

End Parser.

(* ===================================================================== *)
(** * Python slices over lists *)
(* ===================================================================== *)

Module PySlice.

(** An index of a slice [start:stop] brought into [0, len], as
    [slice.indices] does for a step of 1: a negative index counts from
    the end, and what is still out of range is clamped. *)
Definition clamp (len i : Z) : Z :=
  if i <? 0 then Z.max (i + len) 0 else Z.min i len.

(** first index and number of elements of [l[start:stop]] *)
Definition range (len : nat) (start stop : Z) : nat * nat :=
  let lo := clamp (Z.of_nat len) start in
  let hi := clamp (Z.of_nat len) stop in
  (Z.to_nat lo, Z.to_nat (hi - lo)).

(** [l[start:stop]] *)
Definition get {A} (l : list A) (start stop : Z) : list A :=
  let '(lo, n) := range (length l) start stop in
  take n (drop lo l).

(** [l[start:stop] = v] for a [v] with as many elements as the slice
    (a numpy view is assigned element by element: the length of [l]
    never changes) *)
Definition set {A} (l : list A) (start stop : Z) (v : list A) : list A :=
  let '(lo, n) := range (length l) start stop in
  take lo l ++ v ++ drop (lo + n) l.

End PySlice.

(* ===================================================================== *)
(** * The compositor *)
(* ===================================================================== *)

(** One pixel of the 3-channel uint8 image, in B, G, R order. *)
Definition Pixel : Type := Byte.byte * Byte.byte * Byte.byte.

(** The target image, a numpy array of shape [(img_h, img_w, 3)] and dtype
    uint8, as its rows of pixels.  The byte of channel [k] of the pixel in
    row [r] and column [c] is at offset [(r * img_w + c) * 3 + k] of the
    underlying buffer. *)
Record Image := mkImage {
  img_w : nat;
  data : list (list Pixel)
}.

Definition img_h (img : Image) : nat := length (data img).

Definition wf_image (img : Image) : Prop :=
  Forall (fun row => length row = img_w img) (data img).

(** FreeType's [bitmap]: [rows] lines of [width] coverage bytes in
    [buffer], row after row. *)
Record Bitmap := mkBitmap {
  width : nat;
  rows : nat;
  buffer : list Byte.byte
}.

Definition byte_to_Z (b : Byte.byte) : Z := Z.of_N (Byte.to_N b).

(** The conversion of [astype(np.uint8)] on an integer: the low 8 bits. *)
Definition uint8_of_Z (z : Z) : Byte.byte :=
  match Byte.of_N (Z.to_N (z mod 256)) with
  | Some b => b
  | None => Byte.x00
  end.

(** [astype(np.uint8)] on a float64: the value is truncated toward zero;
    the C conversion leaves a value outside [0, 255] undefined, modelled
    here as the low 8 bits of the truncation (and 0 for inf and NaN). *)
Definition astype_uint8 (f : F64.float) : Byte.byte :=
  match F64.trunc f with
  | Some z => uint8_of_Z z
  | None => Byte.x00
  end.

Definition f_zero : F64.float := S754_zero false.
Definition f_one : F64.float := F64.of_Z 1.
Definition f_255 : F64.float := F64.of_Z 255.

(** [glyph_roi / 255.0] on one coverage byte *)
Definition alpha_of (cov : Byte.byte) : F64.float :=
  F64.div (F64.of_Z (byte_to_Z cov)) f_255.

(** [(1.0 - alpha) * target + alpha * color] on one channel *)
Definition blend_channel (alpha : F64.float) (target : Byte.byte) (col : Z) : F64.float :=
  F64.add (F64.mul (F64.sub f_one alpha) (F64.of_Z (byte_to_Z target)))
          (F64.mul alpha (F64.of_Z col)).

Definition blend_pixel (alpha : F64.float) (target : Pixel) (color_bgr : Z * Z * Z) : Pixel :=
  let '(tb, tg, tr) := target in
  let '(cb, cg, cr) := color_bgr in
  (astype_uint8 (blend_channel alpha tb cb),
   astype_uint8 (blend_channel alpha tg cg),
   astype_uint8 (blend_channel alpha tr cr)).

(** [np.array(buffer, dtype=np.uint8).reshape(h, w)]: ValueError unless the
    buffer has [h * w] bytes. *)
Fixpoint chunks {A} (h w : nat) (l : list A) : list (list A) :=
  match h with
  | O => []
  | S h' => take w l :: chunks h' w (drop w l)
  end.

Definition reshape {A} (h w : nat) (l : list A) : option (list (list A)) :=
  if Nat.eqb (length l) (h * w) then Some (chunks h w l) else None.

(** [a[r0:r1, c0:c1]] on a 2-d array *)
Definition slice2d {A} (a : list (list A)) (r0 r1 c0 c1 : Z) : list (list A) :=
  map (fun row => PySlice.get row c0 c1) (PySlice.get a r0 r1).

(** numpy broadcasting of an axis of [l] against a target axis of [n]
    elements: the lengths agree, or [l] has one element that is repeated;
    anything else is a ValueError, in the arithmetic or in the assignment
    back into the target. *)
Definition broadcast {A} (n : nat) (l : list A) : option (list A) :=
  if Nat.eqb (length l) n then Some l
  else match l with
       | [a] => Some (replicate n a)
       | _ => None
       end.

Definition blend_row (alpha_row : list F64.float) (target_row : list Pixel)
    (color_bgr : Z * Z * Z) : option (list Pixel) :=
  match broadcast (length target_row) alpha_row with
  | Some al => Some (zip_with (fun a t => blend_pixel a t color_bgr) al target_row)
  | None => None
  end.

(** [mapM] over two lists of equal length *)
Fixpoint zip_rows {A B C} (f : A -> B -> option C) (la : list A) (lb : list B)
  : option (list C) :=
  match la, lb with
  | a :: la', b :: lb' =>
      match f a b, zip_rows f la' lb' with
      | Some c, Some cs => Some (c :: cs)
      | _, _ => None
      end
  | _, _ => Some []
  end.

(** [((1.0 - alpha) * target_roi + alpha * color_bgr).astype(np.uint8)],
    of the shape of [target_roi] *)
Definition blend_roi (alpha : list (list F64.float)) (target_roi : list (list Pixel))
    (color_bgr : Z * Z * Z) : option (list (list Pixel)) :=
  match broadcast (length target_roi) alpha with
  | Some al => zip_rows (fun a t => blend_row a t color_bgr) al target_roi
  | None => None
  end.

(** [img[r0:r1, c0:c1] = v] *)
Definition assign2d {A} (a : list (list A)) (r0 r1 c0 c1 : Z) (v : list (list A))
  : list (list A) :=
  PySlice.set a r0 r1
    (zip_with (fun row vrow => PySlice.set row c0 c1 vrow) (PySlice.get a r0 r1) v).

(** The clip amounts and the clipped size of [_draw_glyph]. *)
Record Clip := mkClip {
  x_start_clip : Z;
  y_start_clip : Z;
  x_end_clip : Z;
  y_end_clip : Z;
  clipped_w : Z;
  clipped_h : Z
}.

Definition clip_of (img : Image) (glyph_bitmap : Bitmap) (x y : Z) : Clip :=
  let w := Z.of_nat (width glyph_bitmap) in
  let h := Z.of_nat (rows glyph_bitmap) in
  let img_h := Z.of_nat (img_h img) in
  let img_w := Z.of_nat (img_w img) in
  let x_start_clip := Z.max 0 (- x) in
  let y_start_clip := Z.max 0 (- y) in
  let x_end_clip := Z.max 0 (x + w - img_w) in
  let y_end_clip := Z.max 0 (y + h - img_h) in
  {| x_start_clip := x_start_clip;
     y_start_clip := y_start_clip;
     x_end_clip := x_end_clip;
     y_end_clip := y_end_clip;
     clipped_w := w - x_start_clip - x_end_clip;
     clipped_h := h - y_start_clip - y_end_clip |}.

(** The four index expressions of a 2-d slice [a[r0:r1, c0:c1]]. *)
Record Rect := mkRect { r0 : Z; r1 : Z; c0 : Z; c1 : Z }.

(** the slice of the image that is read and written *)
Definition target_rect (x y : Z) (cl : Clip) : Rect :=
  {| r0 := y + y_start_clip cl; r1 := y + y_start_clip cl + clipped_h cl;
     c0 := x + x_start_clip cl; c1 := x + x_start_clip cl + clipped_w cl |}.

(** the slice of the glyph bitmap that is read *)
Definition glyph_rect (cl : Clip) : Rect :=
  {| r0 := y_start_clip cl; r1 := y_start_clip cl + clipped_h cl;
     c0 := x_start_clip cl; c1 := x_start_clip cl + clipped_w cl |}.

(** The early returns of [_draw_glyph]: an empty bitmap, or nothing left
    after clipping. *)
Definition nothing_to_draw (img : Image) (glyph_bitmap : Bitmap) (x y : Z) : bool :=
  (Nat.eqb (width glyph_bitmap) 0 || Nat.eqb (rows glyph_bitmap) 0)
  || (let cl := clip_of img glyph_bitmap x y in
      (clipped_w cl <=? 0) || (clipped_h cl <=? 0)).

Definition _draw_glyph (img : Image) (glyph_bitmap : Bitmap) (x y : Z)
    (color_bgr : Z * Z * Z) : option Image :=
  let w := width glyph_bitmap in
  let h := rows glyph_bitmap in
  if Nat.eqb w 0 || Nat.eqb h 0 then Some img
  else
    let cl := clip_of img glyph_bitmap x y in
    if (clipped_w cl <=? 0) || (clipped_h cl <=? 0) then Some img
    else
      let tr := target_rect x y cl in
      let gr := glyph_rect cl in
      let target_roi := slice2d (data img) (r0 tr) (r1 tr) (c0 tr) (c1 tr) in
      match reshape h w (buffer glyph_bitmap) with
      | None => None
      | Some g =>
          let glyph_roi := slice2d g (r0 gr) (r1 gr) (c0 gr) (c1 gr) in
          let alpha := map (map alpha_of) glyph_roi in
          match blend_roi alpha target_roi color_bgr with
          | None => None
          | Some blended_roi =>
              Some {| img_w := img_w img;
                      data := assign2d (data img) (r0 tr) (r1 tr) (c0 tr) (c1 tr) blended_roi |}
          end
      end.

(** [a[r][c]], if the indices are in range *)
Definition lookup2 {A} (a : list (list A)) (r c : nat) : option A :=
  match a !! r with
  | Some row => row !! c
  | None => None
  end.

(** the pixel in row [r] and column [c] *)
Definition pixel_at (img : Image) (r c : nat) : option Pixel :=
  lookup2 (data img) r c.

(** the coverage byte in row [i] and column [j] of the bitmap *)
Definition coverage_at (bm : Bitmap) (i j : nat) : option Byte.byte :=
  if (j <? width bm)%nat then buffer bm !! (i * width bm + j)%nat else None.

(* ===================================================================== *)
(** * The layout loop *)
(* ===================================================================== *)

(** [face.glyph] after [load_char]: the rendered bitmap, its bearings in
    pixels and the advance in 26.6 fixed point. *)
Record GlyphSlot := mkGlyphSlot {
  bitmap : Bitmap;
  bitmap_left : Z;
  bitmap_top : Z;
  advance_x : Z
}.

(** The FreeType face as the layout loop sees it, each entry at the pixel
    size last given to [set_pixel_sizes]: [size.ascender] and [size.height]
    in 26.6 fixed point, the glyph slot after [load_char], and the [x] of
    [get_kerning(previous_char, char)], where the previous character is the
    integer 0 ([None]) at the start of a line.  The calls are taken to
    return: an error of FreeType (a pixel size or a character that the font
    refuses) is not modelled, so a run of the loop below is a run in which
    FreeType answers. *)
Record Face := mkFace {
  size_ascender : Z -> Z;
  size_height : Z -> Z;
  load_char : Z -> ascii -> GlyphSlot;
  get_kerning_x : Z -> option ascii -> ascii -> Z
}.

(** The entries of [base_options] that [draw_text] reads. *)
Record Options := mkOptions {
  opt_color : option string;
  opt_font_size : option Z;
  opt_line_spacing : option F64.float
}.

(** The variables of the loop of [draw_text].  [drawn] is not a variable of
    the source: it records the calls of [_draw_glyph], as the character and
    the position [(draw_x, draw_y)] of each. *)
Record Pen := mkPen {
  pen_x : Z;
  pen_y : Z;
  previous_char : option ascii;
  image : Image;
  drawn : list (ascii * Z * Z)
}.

Definition newline : ascii := "010"%char.
Definition backslash : ascii := "\"%char.

Section Layout.

Context {B : PyBuiltins}.
Variable face : Face.

(** [tuple(int(hex_color[i:i+2], 16) for i in (4, 2, 0))] after
    [lstrip('#')] *)
Definition hex_to_bgr (hex_color : string) : option (Z * Z * Z) :=
  let hex_color := PyStr.lstrip_char "#" hex_color in
  match py_int 16 (PyStr.slice 4 2 hex_color) with
  | None => None
  | Some b =>
      match py_int 16 (PyStr.slice 2 2 hex_color) with
      | None => None
      | Some g =>
          match py_int 16 (PyStr.slice 0 2 hex_color) with
          | None => None
          | Some r => Some (b, g, r)
          end
      end
  end.

(** [int((face.size.height >> 6) * current_spacing)]; [None] is the
    exception of [int()] on an infinity or a NaN *)
Definition line_gap_of (current_font_size : Z) (current_spacing : F64.float) : option Z :=
  F64.trunc (F64.mul (F64.of_Z (Z.shiftr (size_height face current_font_size) 6)) current_spacing).

(** the test of the wrap [if]; [max_width] is false when it is [None]
    or 0 *)
Definition wraps (x_start : Z) (max_width : option Z) (pen_x kerning advance : Z) : bool :=
  match max_width with
  | Some w =>
      negb (w =? 0) && (pen_x + kerning + advance >? x_start + w) && (pen_x >? x_start)
  | None => false
  end.

(** One round of [for char in text]. *)
Definition draw_char (x_start : Z) (max_width : option Z)
    (current_font_size ascender line_gap : Z) (color_bgr : Z * Z * Z)
    (st : Pen) (char : ascii) : option Pen :=
  if Ascii.eqb char newline then
    Some {| pen_x := x_start;
            pen_y := pen_y st + line_gap;
            previous_char := None;
            image := image st;
            drawn := drawn st |}
  else
    let glyph := load_char face current_font_size char in
    let kerning := Z.shiftr (get_kerning_x face current_font_size (previous_char st) char) 6 in
    let advance := Z.shiftr (advance_x glyph) 6 in
    let '(pen_x1, pen_y1, kerning1) :=
      if wraps x_start max_width (pen_x st) kerning advance
      then (x_start, pen_y st + line_gap, 0)
      else (pen_x st, pen_y st, kerning) in
    let pen_x2 := pen_x1 + kerning1 in
    let draw_x := pen_x2 + bitmap_left glyph in
    let draw_y := pen_y1 + ascender - bitmap_top glyph in
    match _draw_glyph (image st) (bitmap glyph) draw_x draw_y color_bgr with
    | None => None
    | Some img' =>
        Some {| pen_x := pen_x2 + advance;
                pen_y := pen_y1;
                previous_char := Some char;
                image := img';
                drawn := drawn st ++ [(char, draw_x, draw_y)] |}
    end.

Fixpoint draw_chars (x_start : Z) (max_width : option Z)
    (current_font_size ascender line_gap : Z) (color_bgr : Z * Z * Z)
    (txt : string) (st : Pen) : option Pen :=
  match txt with
  | EmptyString => Some st
  | String char txt' =>
      match draw_char x_start max_width current_font_size ascender line_gap color_bgr st char with
      | Some st' =>
          draw_chars x_start max_width current_font_size ascender line_gap color_bgr txt' st'
      | None => None
      end
  end.

(** One round of [for segment in segments]. *)
Definition draw_segment (x_start : Z) (max_width : option Z) (st : Pen) (segment : Segment)
  : option Pen :=
  let current_font_size := font_size (style segment) in
  let current_spacing := spacing (style segment) in
  match hex_to_bgr (color (style segment)) with
  | None => None
  | Some color_bgr =>
      let ascender := Z.shiftr (size_ascender face current_font_size) 6 in
      match line_gap_of current_font_size current_spacing with
      | None => None
      | Some line_gap =>
          draw_chars x_start max_width current_font_size ascender line_gap color_bgr
            (text segment) st
      end
  end.

Fixpoint draw_segments (x_start : Z) (max_width : option Z) (segs : list Segment) (st : Pen)
  : option Pen :=
  match segs with
  | [] => Some st
  | segment :: segs' =>
      match draw_segment x_start max_width st segment with
      | Some st' => draw_segments x_start max_width segs' st'
      | None => None
      end
  end.

Definition default_style_of (base_options : Options) (line_spacing_multiplier : F64.float)
  : Style :=
  {| color := default "#000000" (opt_color base_options);
     font_size := default 40 (opt_font_size base_options);
     spacing := default line_spacing_multiplier (opt_line_spacing base_options) |}.

Definition draw_text (img : Image) (text_to_draw : string) (start_pos : Z * Z)
    (base_options : Options) (max_width : option Z)
    (line_spacing_multiplier : F64.float) : option Pen :=
  let default_style := default_style_of base_options line_spacing_multiplier in
  match _parse_rich_text
          (PyStr.replace2 backslash "n" newline text_to_draw) default_style with
  | None => None
  | Some segs =>
      let '(x_start, y_start) := start_pos in
      draw_segments x_start max_width segs
        {| pen_x := x_start; pen_y := y_start; previous_char := None;
           image := img; drawn := [] |}
  end.

End Layout.

(* ===================================================================== *)
(** * Instances of the built-ins for the examples *)
(* ===================================================================== *)

(** Readers for plain ASCII literals: an optional sign and digits, with
    blanks around them, and for [float] an optional fraction.  On these
    literals they agree with [int()] and [float()]; the literals of Python
    that they leave out (underscores, prefixes, exponents, inf, nan) are
    not used in the examples, and no theorem depends on these readers. *)
Module Builtins.

Definition is_blank (c : ascii) : bool :=
  let n := nat_of_ascii c in
  (Nat.eqb n 32 || (Nat.leb 9 n && Nat.leb n 13))%nat.

Fixpoint lstrip (l : list ascii) : list ascii :=
  match l with
  | c :: l' => if is_blank c then lstrip l' else l
  | [] => []
  end.

Definition strip (s : string) : list ascii :=
  rev (lstrip (rev (lstrip (list_ascii_of_string s)))).

Definition digit_val (base : Z) (c : ascii) : option Z :=
  let n := Z.of_nat (nat_of_ascii c) in
  let v := if (48 <=? n) && (n <=? 57) then Some (n - 48)
           else if (97 <=? n) && (n <=? 102) then Some (n - 87)
           else if (65 <=? n) && (n <=? 70) then Some (n - 55)
           else None in
  match v with
  | Some d => if d <? base then Some d else None
  | None => None
  end.

(** value and number of the digits of [l], all of which must be digits *)
Fixpoint digits (base : Z) (acc : Z) (l : list ascii) : option Z :=
  match l with
  | [] => Some acc
  | c :: l' =>
      match digit_val base c with
      | Some d => digits base (acc * base + d) l'
      | None => None
      end
  end.

Definition signed (l : list ascii) : bool * list ascii :=
  match l with
  | c :: l' =>
      if Ascii.eqb c "-" then (true, l')
      else if Ascii.eqb c "+" then (false, l')
      else (false, l)
  | [] => (false, [])
  end.

Definition ascii_int (base : Z) (s : string) : option Z :=
  let '(neg, l) := signed (strip s) in
  match l with
  | [] => None
  | _ => match digits base 0 l with
         | Some n => Some (if neg then - n else n)
         | None => None
         end
  end.

Fixpoint span_digits (l : list ascii) : list ascii * list ascii :=
  match l with
  | c :: l' =>
      match digit_val 10 c with
      | Some _ => let '(a, b) := span_digits l' in (c :: a, b)
      | None => ([], l)
      end
  | [] => ([], [])
  end.

(** [m / 10^k] for a literal of digits [m] with [k] of them after the
    point; both are exact in binary64 below the bounds tested, so that
    one division rounds correctly *)
Definition ascii_float (s : string) : option F64.float :=
  let '(neg, l) := signed (strip s) in
  let '(ip, r) := span_digits l in
  let fp_rest :=
    match r with
    | c :: r' => if Ascii.eqb c "." then Some (span_digits r') else None
    | [] => Some ([], [])
    end in
  match fp_rest with
  | Some (fp, []) =>
      match (ip ++ fp)%list with
      | [] => None
      | ds =>
          match digits 10 0 ds with
          | Some m =>
              let k := Z.of_nat (length fp) in
              if (m <? 2 ^ 53) && (k <=? 22) then
                let q := F64.div (F64.of_Z m) (F64.of_Z (10 ^ k)) in
                Some (if neg then SFopp q else q)
              else None
          | None => None
          end
      end
  | _ => None
  end.

Definition ascii_builtins : PyBuiltins :=
  {| py_int := ascii_int; py_float := ascii_float |}.

(** A stub face with a fixed advance for every character, no kerning and
    an empty bitmap: the monospaced font of the wrap scenario. *)
Definition mono_face (advance_px line_px : Z) : Face :=
  {| size_ascender := fun _ => 0;
     size_height := fun _ => Z.shiftl line_px 6;
     load_char := fun _ _ =>
       {| bitmap := mkBitmap 0 0 []; bitmap_left := 0; bitmap_top := 0;
          advance_x := Z.shiftl advance_px 6 |};
     get_kerning_x := fun _ _ _ => 0 |}.

End Builtins.

(* ===================================================================== *)
(** * The notions of the specification *)
(* ===================================================================== *)

Section TagKinds.

Context {B : PyBuiltins}.

(** A closing tag: bracketed text whose content starts with '/', whatever
    attribute it names. *)
Definition closing_tag (part : string) : bool :=
  is_tag part && is_closing (PyStr.strip_ends part).

(** An opening tag: bracketed text that is not a closing tag. *)
Definition opening_tag (part : string) : bool :=
  is_tag part && negb (is_closing (PyStr.strip_ends part)).

(** [None]: the built-in raised ValueError. *)
Definition fails {A} (o : option A) : bool :=
  match o with
  | None => true
  | Some _ => false
  end.

(** A malformed tag content: it has no '=', or the value of a [size] does
    not read as an integer, or the value of a [spacing] does not read as a
    float.  (A [color] keeps its value as a string: every value reads.) *)
Definition malformed (tag_content : string) : bool :=
  match PyStr.split_once "=" tag_content with
  | None => true
  | Some (tag_type, value) =>
      (String.eqb tag_type "size" && fails (py_int 10 value))
      || (String.eqb tag_type "spacing" && fails (py_float value))
  end.

Definition malformed_open (part : string) : bool :=
  opening_tag part && malformed (PyStr.strip_ends part).




(** Text that [_parse_rich_text] takes for a tag although the tokenizer
    found none in it: the whole text is bracketed, and its content starts
    with '/' or has a '='. *)
Definition taken_for_tag (txt : string) : bool :=
  is_tag txt
  && (is_closing (PyStr.strip_ends txt)
      || negb (fails (PyStr.split_once "=" (PyStr.strip_ends txt)))).

End TagKinds.

(** The index expressions of a slice are indices of an array of [h] rows
    and [w] columns: nothing is left to the wrap-around of negative indices
    or to the clamping of a Python slice, and every element of the slice is
    an element of the array. *)
Definition rect_within (rc : Rect) (h w : nat) : Prop :=
  0 <= r0 rc <= r1 rc /\ r1 rc <= Z.of_nat h
  /\ 0 <= c0 rc <= c1 rc /\ c1 rc <= Z.of_nat w.

(** Row [r] and column [c] lie in the slice [rc]. *)
Definition in_rect (rc : Rect) (r c : nat) : Prop :=
  r0 rc <= Z.of_nat r < r1 rc /\ c0 rc <= Z.of_nat c < c1 rc.

(** Row [r] and column [c] of the image lie under the bitmap placed with
    its top left corner at [(x, y)]. *)
Definition under_glyph (bm : Bitmap) (x y : Z) (r c : nat) : Prop :=
  y <= Z.of_nat r < y + Z.of_nat (rows bm)
  /\ x <= Z.of_nat c < x + Z.of_nat (width bm).

(** Truncation of a rational toward zero. *)
Definition Qtrunc (q : Q) : Z := if Qle_bool 0 q then Qfloor q else Qceiling q.

(** [n] is an integer nearest to [q], however a tie is broken. *)
Definition nearest_integer (q : Q) (n : Z) : Prop := (Qabs (q - inject_Z n) <= 1 # 2)%Q.

(* ===================================================================== *)
(** * Sample inputs for the examples *)
(* ===================================================================== *)

Module Samples.

Definition px (n : Z) : Pixel := (uint8_of_Z n, uint8_of_Z (n + 1), uint8_of_Z (n + 2)).

(** an image of 3 rows and 4 columns *)
Definition image_3x4 : Image :=
  mkImage 4 [ [px 0; px 10; px 20; px 30];
              [px 40; px 50; px 60; px 70];
              [px 80; px 90; px 100; px 110] ].

(** a bitmap of 2 rows and 2 columns with the coverages 0, 255, 128, 64 *)
Definition glyph_2x2 : Bitmap :=
  mkBitmap 2 2 [Byte.x00; Byte.xff; Byte.x80; Byte.x40].

(** the float 1.2, the default line spacing *)
Definition spacing_1_2 : F64.float := S754_finite false 5404319552844595 (-52).

(** the float 1.75 *)
Definition spacing_1_75 : F64.float := F64.div (F64.of_Z 7) (F64.of_Z 4).

Definition black_40 : Style := mkStyle "#000000" 40 spacing_1_2.
Definition red_20 : Style := mkStyle "#ff0000" 20 spacing_1_2.

Definition no_options : Options := mkOptions None None None.

(** the parser inside a red size-20 level, with nothing emitted yet *)
Definition inside_red : PState :=
  {| style_stack := [black_40; red_20]; segments := [] |}.

(** a pen at the origin of [image_3x4] *)
Definition pen_at (x y : Z) : Pen :=
  {| pen_x := x; pen_y := y; previous_char := None; image := image_3x4; drawn := [] |}.

(** A stub face with a kerning pair: 'a' advances by 2 pixels, 'b' by 1
    and every other character by 20; 'b' after 'a' is kerned by -5 pixels;
    the line height is 10 pixels and the bitmaps are empty. *)
Definition kern_face : Face :=
  {| size_ascender := fun _ => 0;
     size_height := fun _ => 640;
     load_char := fun _ ch =>
       {| bitmap := mkBitmap 0 0 []; bitmap_left := 0; bitmap_top := 0;
          advance_x := if Ascii.eqb ch "a" then 128
                       else if Ascii.eqb ch "b" then 64 else 1280 |};
     get_kerning_x := fun _ prev ch =>
       match prev with
       | Some p => if Ascii.eqb p "a" && Ascii.eqb ch "b" then -320 else 0
       | None => 0
       end |}.

(** A stub face whose every glyph is [glyph_2x2] with an advance of 3
    pixels and no bearing; the line height is 5 pixels. *)
Definition block_face : Face :=
  {| size_ascender := fun _ => 0;
     size_height := fun _ => 320;
     load_char := fun _ _ =>
       {| bitmap := glyph_2x2; bitmap_left := 0; bitmap_top := 0; advance_x := 192 |};
     get_kerning_x := fun _ _ _ => 0 |}.

End Samples.

(* ===================================================================== *)
(** * Further notions *)
(* ===================================================================== *)

(** [''.join(parts)] *)
Definition join (parts : list string) : string := fold_right String.append "" parts.

(** the characters of a text other than newlines, in order *)
Fixpoint visible_chars (txt : string) : list ascii :=
  match txt with
  | EmptyString => []
  | String c txt' => if Ascii.eqb c newline then visible_chars txt' else c :: visible_chars txt'
  end.

(* ===================================================================== *)
(** * main.py: the period of a time command *)
(* ===================================================================== *)

(** A naive [datetime.time]. *)
Record PyTime := mkTime {
  hour : Z;
  minute : Z;
  second : Z;
  microsecond : Z
}.

(** The comparison of two naive times: that of the tuples
    [(hour, minute, second, microsecond)]. *)
Definition time_cmp (a b : PyTime) : comparison :=
  match hour a ?= hour b with
  | Eq =>
      match minute a ?= minute b with
      | Eq =>
          match second a ?= second b with
          | Eq => microsecond a ?= microsecond b
          | c => c
          end
      | c => c
      end
  | c => c
  end.

(** [a <= b], [a < b] and [a >= b] *)
Definition time_le (a b : PyTime) : bool :=
  match time_cmp a b with Gt => false | _ => true end.
Definition time_lt (a b : PyTime) : bool :=
  match time_cmp a b with Lt => true | _ => false end.
Definition time_ge (a b : PyTime) : bool :=
  match time_cmp a b with Lt => false | _ => true end.

(** A period dictionary after [_load_config]: the two parsed times, and the
    other entries of the dictionary as [entries]. *)
Record Period (A : Type) := mkPeriod {
  start_time_obj : PyTime;
  end_time_obj : PyTime;
  entries : A
}.
Arguments mkPeriod {A}.
Arguments start_time_obj {A}.
Arguments end_time_obj {A}.
Arguments entries {A}.

(** The loop of [_get_current_period_info] over
    [time_cmd_config.get("time_periods", [])], with [datetime.now().time()]
    as [now_time]; [None] is the [return None] after the loop. *)
Fixpoint _get_current_period_info {A} (now_time : PyTime) (time_periods : list (Period A))
  : option (Period A) :=
  match time_periods with
  | [] => None
  | period :: rest =>
      let start := start_time_obj period in
      let end_ := end_time_obj period in
      if time_le start end_ then
        if time_le start now_time && time_lt now_time end_ then Some period
        else _get_current_period_info now_time rest
      else
        if time_ge now_time start || time_lt now_time end_ then Some period
        else _get_current_period_info now_time rest
  end.

(** A time of the day: the ranges that [datetime.time] enforces. *)
Definition valid_time (t : PyTime) : Prop :=
  0 <= hour t < 24 /\ 0 <= minute t < 60 /\ 0 <= second t < 60
  /\ 0 <= microsecond t < 1000000.

(** microseconds since midnight *)
Definition microseconds_of (t : PyTime) : Z :=
  ((hour t * 60 + minute t) * 60 + second t) * 1000000 + microsecond t.

Definition day : Z := 86400000000.

(** [now] lies on the arc of the 24-hour clock that runs from the start of
    the period, included, forward to its end, excluded. *)
Definition on_arc {A} (now : PyTime) (period : Period A) : bool :=
  (microseconds_of now - microseconds_of (start_time_obj period)) mod day
  <? (microseconds_of (end_time_obj period) - microseconds_of (start_time_obj period)) mod day.

(** Sample inputs for the properties above. *)
Module MoreSamples.

Definition size_20 : Style := mkStyle "#000000" 20 Samples.spacing_1_2.

(** a bitmap of 2 rows and 2 columns without coverage *)
Definition blank_2x2 : Bitmap :=
  mkBitmap 2 2 [Byte.x00; Byte.x00; Byte.x00; Byte.x00].

Definition at_6_00 : PyTime := mkTime 6 0 0 0.
Definition at_22_00 : PyTime := mkTime 22 0 0 0.
Definition at_23_30 : PyTime := mkTime 23 30 15 250000.

Definition night : Period string := mkPeriod at_22_00 at_6_00 "night".
Definition daytime : Period string := mkPeriod at_6_00 at_22_00 "day".

End MoreSamples.

(* ===================================================================== *)
(** * Facts about strings *)
(* ===================================================================== *)

Lemma append_nil_r (s : string) : s ++ "" = s.
Proof. induction s; simpl; congruence. Qed.

Lemma append_assoc' (a b c : string) : (a ++ b) ++ c = a ++ (b ++ c).
Proof. induction a; simpl; congruence. Qed.

Lemma length_append (a b : string) :
  String.length (a ++ b) = (String.length a + String.length b)%nat.
Proof. induction a; simpl; congruence. Qed.

Lemma break_at_sound c s a b :
  PyStr.break_at c s = Some (a, b) -> s = a ++ String c b.
Proof.
  revert a b. induction s as [|d s IH]; simpl; intros a b H; [done|].
  destruct (Ascii.eqb_spec c d) as [->|Hne].
  - by inversion H.
  - destruct (PyStr.break_at c s) as [[a' b']|]; [|done].
    inversion H; subst. simpl. f_equal. by apply IH.
Qed.

Lemma break_at_app c s a b x :
  PyStr.break_at c s = Some (a, b) -> PyStr.break_at c (s ++ x) = Some (a, b ++ x).
Proof.
  revert a b. induction s as [|d s IH]; simpl; intros a b H; [done|].
  destruct (Ascii.eqb c d).
  - by inversion H.
  - destruct (PyStr.break_at c s) as [[a' b']|]; [|done].
    inversion H; subst. by rewrite (IH a' b).
Qed.

Lemma strip_prefix_sound p s r :
  Tokenizer.strip_prefix p s = Some r -> s = p ++ r.
Proof.
  revert s. induction p as [|a p IH]; intros [|b s]; simpl; intros H; try done.
  - by inversion H.
  - by inversion H.
  - destruct (Ascii.eqb_spec a b) as [->|]; [|done]. f_equal. by apply IH.
Qed.

Lemma strip_prefix_app p s r x :
  Tokenizer.strip_prefix p s = Some r -> Tokenizer.strip_prefix p (s ++ x) = Some (r ++ x).
Proof.
  revert s. induction p as [|a p IH]; intros [|b s]; simpl; intros H; try done.
  - by inversion H.
  - by inversion H.
  - destruct (Ascii.eqb a b); [|done]. by apply IH.
Qed.

(* ===================================================================== *)
(** * Facts about the tokenizer *)
(* ===================================================================== *)

Lemma strip_keyword_sound s k r :
  Tokenizer.strip_keyword Tokenizer.keywords s = Some (k, r) ->
  s = k ++ r /\ (k = "color" \/ k = "size" \/ k = "spacing").
Proof.
  unfold Tokenizer.keywords; cbn [Tokenizer.strip_keyword].
  destruct (Tokenizer.strip_prefix "color" s) eqn:E1;
    [intros ?; simplify_eq; split; [by apply strip_prefix_sound | tauto]|].
  destruct (Tokenizer.strip_prefix "size" s) eqn:E2;
    [intros ?; simplify_eq; split; [by apply strip_prefix_sound | tauto]|].
  destruct (Tokenizer.strip_prefix "spacing" s) eqn:E3; [|done].
  intros ?; simplify_eq; split; [by apply strip_prefix_sound | tauto].
Qed.

Lemma strip_keyword_app s k r x :
  Tokenizer.strip_keyword Tokenizer.keywords s = Some (k, r) ->
  Tokenizer.strip_keyword Tokenizer.keywords (s ++ x) = Some (k, r ++ x).
Proof.
  intros H. destruct (strip_keyword_sound _ _ _ H) as [-> [-> | [-> | ->]]]; reflexivity.
Qed.

Lemma match_body_sound s b rest :
  Tokenizer.match_body s = Some (b, rest) -> s = b ++ rest.
Proof.
  unfold Tokenizer.match_body.
  destruct (PyStr.break_at Tokenizer.rbracket s) as [[a r]|] eqn:E; [|done].
  intros ?; simplify_eq. rewrite (break_at_sound _ _ _ _ E).
  by rewrite append_assoc'.
Qed.

Lemma match_body_app s b rest x :
  Tokenizer.match_body s = Some (b, rest) ->
  Tokenizer.match_body (s ++ x) = Some (b, rest ++ x).
Proof.
  unfold Tokenizer.match_body.
  destruct (PyStr.break_at Tokenizer.rbracket s) as [[a r]|] eqn:E; [|done].
  intros ?; simplify_eq. by rewrite (break_at_app _ _ _ _ x E).
Qed.

Lemma match_after_bracket_sound s m rest :
  Tokenizer.match_after_bracket s = Some (m, rest) -> s = m ++ rest.
Proof.
  unfold Tokenizer.match_after_bracket.
  destruct s as [|c s].
  - cbv beta iota. done.
  - destruct (Ascii.eqb_spec c Tokenizer.slash) as [->|_]; cbv beta iota.
    + destruct (Tokenizer.strip_keyword Tokenizer.keywords s) as [[k r]|] eqn:Ek; [|done].
      destruct (Tokenizer.match_body r) as [[b rest']|] eqn:Eb; [|done].
      intros ?; simplify_eq.
      apply strip_keyword_sound in Ek as [-> _]. apply match_body_sound in Eb as ->.
      cbn [String.append]. by rewrite !append_assoc'.
    + destruct (Tokenizer.strip_keyword Tokenizer.keywords (String c s)) as [[k r]|] eqn:Ek; [|done].
      destruct (Tokenizer.match_body r) as [[b rest']|] eqn:Eb; [|done].
      intros ?; simplify_eq.
      apply strip_keyword_sound in Ek as [-> _]. apply match_body_sound in Eb as ->.
      cbn [String.append]. by rewrite !append_assoc'.
Qed.

Lemma match_after_bracket_app s m rest x :
  Tokenizer.match_after_bracket s = Some (m, rest) ->
  Tokenizer.match_after_bracket (s ++ x) = Some (m, rest ++ x).
Proof.
  unfold Tokenizer.match_after_bracket.
  destruct s as [|c s]; cbn [String.append].
  - cbv beta iota. done.
  - destruct (Ascii.eqb c Tokenizer.slash); cbv beta iota.
    + destruct (Tokenizer.strip_keyword Tokenizer.keywords s) as [[k r]|] eqn:Ek; [|done].
      destruct (Tokenizer.match_body r) as [[b rest']|] eqn:Eb; [|done].
      intros ?; simplify_eq.
      by rewrite (strip_keyword_app _ _ _ x Ek), (match_body_app _ _ _ x Eb).
    + destruct (Tokenizer.strip_keyword Tokenizer.keywords (String c s)) as [[k r]|] eqn:Ek; [|done].
      destruct (Tokenizer.match_body r) as [[b rest']|] eqn:Eb; [|done].
      intros ?; simplify_eq.
      change (String c (s ++ x)) with (String c s ++ x).
      by rewrite (strip_keyword_app _ _ _ x Ek), (match_body_app _ _ _ x Eb).
Qed.

Lemma match_tag_sound s m rest :
  Tokenizer.match_tag s = Some (m, rest) -> s = m ++ rest.
Proof.
  destruct s as [|c s]; simpl; [done|].
  destruct (Ascii.eqb_spec c Tokenizer.lbracket) as [->|]; [|done].
  destruct (Tokenizer.match_after_bracket s) as [[m' r]|] eqn:E; [|done].
  intros ?; simplify_eq. simpl. f_equal. by apply match_after_bracket_sound.
Qed.

Lemma match_tag_app s m rest x :
  Tokenizer.match_tag s = Some (m, rest) ->
  Tokenizer.match_tag (s ++ x) = Some (m, rest ++ x).
Proof.
  destruct s as [|c s]; simpl; [done|].
  destruct (Ascii.eqb c Tokenizer.lbracket); [|done].
  destruct (Tokenizer.match_after_bracket s) as [[m' r]|] eqn:E; [|done].
  intros ?; simplify_eq. by rewrite (match_after_bracket_app _ _ _ x E).
Qed.

Lemma match_tag_shorter s m rest :
  Tokenizer.match_tag s = Some (m, rest) -> (String.length rest < String.length s)%nat.
Proof.
  destruct s as [|c s]; simpl; [done|].
  destruct (Ascii.eqb c Tokenizer.lbracket); [|done].
  destruct (Tokenizer.match_after_bracket s) as [[m' r]|] eqn:E; [|done].
  intros ?; simplify_eq. apply match_after_bracket_sound in E as ->.
  rewrite length_append. lia.
Qed.


Lemma split_scan_S n lit s :
  Tokenizer.split_scan (S n) lit s =
  match Tokenizer.match_tag s with
  | Some (m, rest) => lit :: m :: Tokenizer.split_scan n "" rest
  | None =>
      match s with
      | "" => [lit]
      | String c s' => Tokenizer.split_scan n (lit ++ String c "") s'
      end
  end.
Proof. reflexivity. Qed.


(** Text in which the pattern matches nowhere comes back as one part. *)
Lemma split_scan_no_tag n lit s :
  Tokenizer.contains_tag s = false -> Tokenizer.split_scan n lit s = [lit ++ s].
Proof.
  revert lit s. induction n as [|n IH]; intros lit s H; [done|].
  rewrite split_scan_S.
  destruct s as [|c s]; cbn [Tokenizer.contains_tag] in H.
  - destruct (Tokenizer.match_tag "") eqn:E; [done|]. by rewrite append_nil_r.
  - destruct (Tokenizer.match_tag (String c s)) eqn:E; [done|].
    rewrite IH by done. by rewrite append_assoc'.
Qed.

Lemma re_split_no_tag s :
  Tokenizer.contains_tag s = false -> Tokenizer.re_split s = [s].
Proof. intros H. unfold Tokenizer.re_split. by rewrite split_scan_no_tag. Qed.

(** A whole tag in front of any text is the first match there. *)
Lemma is_markup_tag_match t :
  Tokenizer.is_markup_tag t = true -> Tokenizer.match_tag t = Some (t, "").
Proof.
  unfold Tokenizer.is_markup_tag.
  destruct (Tokenizer.match_tag t) as [[m [|c r]]|]; try done.
  intros H. apply String.eqb_eq in H. by subst.
Qed.


(* ===================================================================== *)
(** * The markup parser *)
(* ===================================================================== *)

Section ParserFacts.

Context {B : PyBuiltins}.

Lemma is_tag_nonempty part : is_tag part = true -> String.eqb part "" = false.
Proof. by destruct part. Qed.

Lemma top_snoc (stack : list Style) s : top (stack ++ [s]) = Some s.
Proof. unfold top. apply last_snoc. Qed.

Lemma pop_snoc (stack : list Style) s : pop (stack ++ [s]) = stack.
Proof. unfold pop. apply removelast_last. Qed.

Lemma top_is_Some (stack : list Style) : stack <> [] -> is_Some (top stack).
Proof.
  intros H. destruct (last stack) eqn:E; [by eexists|].
  apply last_None in E. done.
Qed.

(** The [try] fails exactly on a malformed content, whatever the style. *)
Lemma apply_tag_malformed tag_content s :
  apply_tag tag_content s = None <-> malformed tag_content = true.
Proof.
  unfold apply_tag, malformed.
  destruct (PyStr.split_once "=" tag_content) as [[t v]|]; [|done].
  destruct (String.eqb t "color") eqn:Ec.
  - apply String.eqb_eq in Ec as ->. simpl. done.
  - destruct (String.eqb t "size") eqn:Es.
    + simpl. destruct (py_int 10 v); simpl; [|done].
      apply String.eqb_eq in Es as ->. simpl. done.
    + simpl. destruct (String.eqb t "spacing"); simpl; [|done].
      destruct (py_float v); done.
Qed.


Lemma parse_part_closing st c :
  closing_tag c = true ->
  parse_part st c =
    Some (if 1 <? Z.of_nat (length (style_stack st))
          then {| style_stack := pop (style_stack st); segments := segments st |}
          else st).
Proof.
  unfold closing_tag. intros [Ht Hc]%andb_true_iff.
  unfold parse_part. rewrite (is_tag_nonempty _ Ht), Ht, Hc.
  by destruct (1 <? _).
Qed.


Lemma parse_part_malformed st part cur :
  malformed_open part = true -> top (style_stack st) = Some cur ->
  parse_part st part = Some (emit part cur st).
Proof.
  unfold malformed_open, opening_tag.
  intros [[Ht Hc%negb_true_iff]%andb_true_iff Hm]%andb_true_iff Htop.
  unfold parse_part. rewrite (is_tag_nonempty _ Ht), Ht, Hc, Htop.
  apply (apply_tag_malformed _ cur) in Hm. by rewrite Hm.
Qed.


(** A round never empties the stack and never touches its bottom. *)
Lemma parse_part_bottom st part d above :
  style_stack st = d :: above ->
  exists st' above', parse_part st part = Some st' /\ style_stack st' = d :: above'.
Proof.
  intros Hs. destruct (top_is_Some (style_stack st)) as [cur Hcur]; [by rewrite Hs|].
  unfold parse_part. rewrite Hcur.
  destruct (String.eqb part ""); [by eauto|].
  destruct (is_tag part).
  - destruct (is_closing _).
    + destruct (1 <? _) eqn:E; [|by eauto].
      eexists _, _. split; [done|]. simpl. rewrite Hs.
      rewrite Hs in E. destruct above as [|a above]; [done|].
      unfold pop. change (d :: a :: above) with ([d] ++ a :: above)%list.
      rewrite removelast_app by done. done.
    + destruct (apply_tag _ _); eexists _, _; (split; [done|]); simpl; by rewrite Hs.
  - eexists _, _; (split; [done|]); simpl; by rewrite Hs.
Qed.

Lemma parse_parts_bottom parts st d above :
  style_stack st = d :: above ->
  exists st' above', parse_parts parts st = Some st' /\ style_stack st' = d :: above'.
Proof.
  revert st above. induction parts as [|part parts IH]; intros st above Hs; simpl.
  - by eauto.
  - destruct (parse_part_bottom st part d above Hs) as (st1 & above1 & -> & Hs1).
    by apply (IH st1 above1).
Qed.




(** Every text parses: no round of the loop raises. *)
Lemma parse_total txt default_options :
  is_Some (_parse_rich_text txt default_options).
Proof.
  unfold _parse_rich_text.
  destruct (parse_parts_bottom (Tokenizer.re_split txt) (initial_state default_options)
              default_options []) as (st & above & -> & _); [done|].
  by eexists.
Qed.

(** ** C2: one stack for all attributes *)


(** The nested-size scenario of the specification. *)
Example nested_sizes_unwind :
  option_map (map (fun seg => (text seg, font_size (style seg))))
    (_parse_rich_text (B := Builtins.ascii_builtins)
       "[size=20]A[size=10]B[/size]C[/size]"
       (mkStyle "#000000" 40 (F64.of_Z 1)))
  = Some [("A", 20); ("B", 10); ("C", 20)].
Proof. vm_compute. reflexivity. Qed.

(** The colour scenario of the specification. *)
Example colour_then_default :
  option_map (map (fun seg => (text seg, color (style seg), font_size (style seg))))
    (_parse_rich_text (B := Builtins.ascii_builtins)
       "[color=#ff0000]Hi[/color] there"
       (mkStyle "#000000" 40 (F64.of_Z 1)))
  = Some [("Hi", "#ff0000", 40); (" there", "#000000", 40)].
Proof. vm_compute. reflexivity. Qed.

(** A closing tag pops whatever opened the level: here [/color] closes a
    size. *)
Example closing_any_attribute :
  option_map (map (fun seg => (text seg, font_size (style seg))))
    (_parse_rich_text (B := Builtins.ascii_builtins)
       "[size=20]A[/color]B[/spacing]C"
       (mkStyle "#000000" 40 (F64.of_Z 1)))
  = Some [("A", 20); ("B", 40); ("C", 40)].
Proof. vm_compute. reflexivity. Qed.

(** ** The shape of a tag matched by the tokenizer *)

Lemma last_char_snoc y c : PyStr.last_char (y ++ String c "") = Some c.
Proof.
  induction y as [|a y IH]; [done|].
  cbn [String.append PyStr.last_char]. rewrite IH.
  by destruct (y ++ String c "") eqn:E; [destruct y|].
Qed.

Lemma drop_last_snoc y c : PyStr.drop_last (y ++ String c "") = y.
Proof.
  induction y as [|a y IH]; [done|].
  cbn [String.append PyStr.drop_last]. rewrite IH.
  by destruct (y ++ String c "") eqn:E; [destruct y|].
Qed.

Lemma bracketed_is_tag y :
  is_tag (String "[" (y ++ "]")) = true /\ PyStr.strip_ends (String "[" (y ++ "]")) = y.
Proof.
  split.
  - unfold is_tag, PyStr.endswith_char.
    change (String "[" (y ++ "]")) with (String "[" y ++ "]").
    rewrite last_char_snoc. by destruct y.
  - apply drop_last_snoc.
Qed.

(** What the pattern matches: a bracket, an optional '/', a keyword, and
    a run up to the first ']'. *)
Lemma match_tag_shape s m rest :
  Tokenizer.match_tag s = Some (m, rest) ->
  exists sl k a,
    (sl = "" \/ sl = "/") /\ (k = "color" \/ k = "size" \/ k = "spacing")
    /\ m = String "[" ((sl ++ k ++ a) ++ "]").
Proof.
  destruct s as [|c s]; simpl; [done|].
  destruct (Ascii.eqb c Tokenizer.lbracket); [|done].
  destruct (Tokenizer.match_after_bracket s) as [[m' r]|] eqn:E; [|done].
  intros ?; simplify_eq.
  revert E. unfold Tokenizer.match_after_bracket.
  assert (Hgen : forall sl s1,
    match Tokenizer.strip_keyword Tokenizer.keywords s1 with
    | Some (k, r0) =>
        match Tokenizer.match_body r0 with
        | Some (b, rest0) => Some (sl ++ k ++ b, rest0)
        | None => None
        end
    | None => None
    end = Some (m', rest) ->
    exists k a, (k = "color" \/ k = "size" \/ k = "spacing")
      /\ m' = (sl ++ k ++ a) ++ "]").
  { intros sl s1.
    destruct (Tokenizer.strip_keyword Tokenizer.keywords s1) as [[k r0]|] eqn:Ek; [|done].
    unfold Tokenizer.match_body.
    destruct (PyStr.break_at Tokenizer.rbracket r0) as [[a b]|]; [|done].
    intros ?; simplify_eq. apply strip_keyword_sound in Ek as [_ Hk].
    exists k, a. split; [done|]. by rewrite !append_assoc'. }
  destruct s as [|c' s].
  - cbv beta iota. intros H. destruct (Hgen "" "" H) as (k & a & Hk & ->).
    exists "", k, a. auto.
  - destruct (Ascii.eqb c' Tokenizer.slash); cbv beta iota; intros H.
    + destruct (Hgen (String Tokenizer.slash "") s H) as (k & a & Hk & ->).
      exists "/", k, a. auto.
    + destruct (Hgen "" (String c' s) H) as (k & a & Hk & ->).
      exists "", k, a. auto.
Qed.

Lemma break_at_first c a rest :
  PyStr.break_at c a = None -> PyStr.break_at c (a ++ String c rest) = Some (a, rest).
Proof.
  induction a as [|d a IH]; cbn [String.append PyStr.break_at].
  - intros _. by rewrite Ascii.eqb_refl.
  - destruct (Ascii.eqb c d); [done|].
    destruct (PyStr.break_at c a) as [[? ?]|]; [done|]. intros _. by rewrite IH.
Qed.

Lemma strip_keyword_complete k r :
  (k = "color" \/ k = "size" \/ k = "spacing") ->
  Tokenizer.strip_keyword Tokenizer.keywords (k ++ r) = Some (k, r).
Proof. intros [-> | [-> | ->]]; reflexivity. Qed.

Lemma match_after_bracket_slash s :
  Tokenizer.match_after_bracket (String "/" s)
  = match Tokenizer.strip_keyword Tokenizer.keywords s with
    | Some (k, r) =>
        match Tokenizer.match_body r with
        | Some (b, rest) => Some ("/" ++ k ++ b, rest)
        | None => None
        end
    | None => None
    end.
Proof. reflexivity. Qed.

Lemma match_after_bracket_keyword k r :
  (k = "color" \/ k = "size" \/ k = "spacing") ->
  Tokenizer.match_after_bracket (k ++ r)
  = match Tokenizer.match_body r with
    | Some (b, rest) => Some (k ++ b, rest)
    | None => None
    end.
Proof.
  intros Hk.
  transitivity (match Tokenizer.strip_keyword Tokenizer.keywords (k ++ r) with
                | Some (k', r') =>
                    match Tokenizer.match_body r' with
                    | Some (b, rest) => Some ("" ++ k' ++ b, rest)
                    | None => None
                    end
                | None => None
                end).
  - by destruct Hk as [-> | [-> | ->]].
  - by rewrite (strip_keyword_complete k r Hk).
Qed.

(** Conversely, the model matches every text of that shape: the pattern
    and [match_tag] accept the same texts. *)
Lemma match_tag_complete sl k a rest :
  (sl = "" \/ sl = "/") -> (k = "color" \/ k = "size" \/ k = "spacing") ->
  PyStr.break_at Tokenizer.rbracket a = None ->
  Tokenizer.match_tag (String "[" (sl ++ k ++ a ++ String "]" rest))
  = Some (String "[" ((sl ++ k ++ a) ++ "]"), rest).
Proof.
  intros Hsl Hk Ha.
  assert (Hbody : Tokenizer.match_body (a ++ String "]" rest) = Some (a ++ "]", rest)).
  { unfold Tokenizer.match_body. by rewrite (break_at_first _ _ _ Ha). }
  cbn [Tokenizer.match_tag]. change (Ascii.eqb "[" Tokenizer.lbracket) with true.
  cbv beta iota. destruct Hsl as [-> | ->].
  - cbn [String.append]. rewrite (match_after_bracket_keyword _ _ Hk), Hbody.
    by rewrite append_assoc'.
  - cbn [String.append]. rewrite match_after_bracket_slash.
    rewrite (strip_keyword_complete _ _ Hk), Hbody.
    cbn [String.append]. by rewrite append_assoc'.
Qed.

Lemma markup_tag_shape t :
  Tokenizer.is_markup_tag t = true ->
  exists sl k a,
    (sl = "" \/ sl = "/") /\ (k = "color" \/ k = "size" \/ k = "spacing")
    /\ t = String "[" ((sl ++ k ++ a) ++ "]")
    /\ is_tag t = true /\ PyStr.strip_ends t = sl ++ k ++ a.
Proof.
  intros H. apply is_markup_tag_match in H.
  destruct (match_tag_shape _ _ _ H) as (sl & k & a & Hsl & Hk & ->).
  exists sl, k, a. pose proof (bracketed_is_tag (sl ++ k ++ a)) as [? ?]. auto.
Qed.

Lemma markup_tag_is_tag t : Tokenizer.is_markup_tag t = true -> is_tag t = true.
Proof. intros H. by destruct (markup_tag_shape t H) as (? & ? & ? & _ & _ & _ & ? & _). Qed.

(** The text before the first '=' of an opening tag starts with the
    keyword that the tokenizer matched. *)
Lemma opening_tag_type t tag_type value :
  Tokenizer.is_markup_tag t = true ->
  is_closing (PyStr.strip_ends t) = false ->
  PyStr.split_once "=" (PyStr.strip_ends t) = Some (tag_type, value) ->
  exists k ext, (k = "color" \/ k = "size" \/ k = "spacing") /\ tag_type = k ++ ext.
Proof.
  intros H Hc Hs.
  destruct (markup_tag_shape t H) as (sl & k & a & Hsl & Hk & _ & _ & Hcontent).
  rewrite Hcontent in Hc, Hs.
  destruct Hsl as [-> | ->]; [|by vm_compute in Hc].
  cbn [String.append] in Hs. unfold PyStr.split_once in Hs.
  exists k. destruct Hk as [-> | [-> | ->]]; simpl in Hs;
    destruct (PyStr.break_at "=" a) as [[x y]|]; simpl in Hs; simplify_eq;
    exists x; (split; [auto | reflexivity]).
Qed.

Lemma parse_parts_total parts st :
  style_stack st <> [] -> is_Some (parse_parts parts st).
Proof.
  intros H. destruct (style_stack st) as [|d above] eqn:E; [done|].
  destruct (parse_parts_bottom parts st d above E) as (st' & ? & -> & _). by eexists.
Qed.

Lemma top_nonempty (stack : list Style) cur : top stack = Some cur -> stack <> [].
Proof. by intros H ->. Qed.

(** ** C3: a malformed opening tag becomes literal text *)


(** ** C9: a malformed opening tag leaves the stack alone *)

(** The segments only grow, by what the parts emit. *)
Lemma parse_part_frame st part st' :
  parse_part st part = Some st' ->
  exists out, segments st' = (segments st ++ out)%list /\
    forall segs, parse_part {| style_stack := style_stack st; segments := segs |} part
      = Some {| style_stack := style_stack st'; segments := (segs ++ out)%list |}.
Proof.
  unfold parse_part. destruct (String.eqb part "").
  { intros ?; simplify_eq. exists []. rewrite app_nil_r. split; [done|].
    intros segs. by rewrite app_nil_r. }
  cbn [style_stack segments].
  destruct (is_tag part).
  - destruct (is_closing _).
    + destruct (1 <? _); intros ?; simplify_eq; exists []; rewrite app_nil_r;
        (split; [done|]); intros segs; by rewrite app_nil_r.
    + destruct (top (style_stack st)) as [cur|]; [|done].
      destruct (apply_tag _ _); intros ?; simplify_eq.
      * exists []. rewrite app_nil_r. split; [done|]. intros segs.
        unfold push. cbn [style_stack segments]. by rewrite app_nil_r.
      * by exists [mkSegment part cur].
  - destruct (top (style_stack st)) as [cur|]; [|done].
    intros ?; simplify_eq. by exists [mkSegment part cur].
Qed.

Lemma parse_parts_frame parts st st' :
  parse_parts parts st = Some st' ->
  exists out, segments st' = (segments st ++ out)%list /\
    forall segs, parse_parts parts {| style_stack := style_stack st; segments := segs |}
      = Some {| style_stack := style_stack st'; segments := (segs ++ out)%list |}.
Proof.
  revert st. induction parts as [|part parts IH]; intros st; cbn [parse_parts].
  - intros ?; simplify_eq. exists []. rewrite app_nil_r. split; [done|].
    intros segs. by rewrite app_nil_r.
  - destruct (parse_part st part) as [st1|] eqn:E1; [|done]. intros E2.
    destruct (parse_part_frame _ _ _ E1) as (out1 & Ho1 & F1).
    destruct (IH _ E2) as (out2 & Ho2 & F2).
    exists (out1 ++ out2)%list. split.
    + by rewrite Ho2, Ho1, app_assoc.
    + intros segs. rewrite F1. rewrite (F2 (segs ++ out1)%list). by rewrite app_assoc.
Qed.

(** C9.  A malformed opening tag met in a state whose active style is
    [cur] leaves the style stack as it was: the round only appends the
    literal segment.  Whatever parts follow, they run to the same stack and
    emit the same segments as they would have without the tag, after that
    one segment. *)
Theorem C9_malformed_tag_keeps_stack (st : PState) (tag : string) (cur : Style)
    (parts : list string) :
  malformed_open tag = true ->
  top (style_stack st) = Some cur ->
  exists st_without out,
    parse_parts parts st = Some st_without
    /\ segments st_without = (segments st ++ out)%list
    /\ parse_part st tag
       = Some {| style_stack := style_stack st;
                 segments := (segments st ++ [mkSegment tag cur])%list |}
    /\ parse_parts (tag :: parts) st
       = Some {| style_stack := style_stack st_without;
                 segments := (segments st ++ [mkSegment tag cur] ++ out)%list |}.
Proof.
  intros Hbad Htop.
  destruct (parse_parts_total parts st) as [st_without Hrun];
    [by apply top_nonempty in Htop|].
  destruct (parse_parts_frame _ _ _ Hrun) as (out & Hout & F).
  exists st_without, out. split; [done|]. split; [done|].
  pose proof (parse_part_malformed st tag cur Hbad Htop) as Hstep.
  split; [done|].
  cbn [parse_parts]. rewrite Hstep. unfold emit.
  rewrite (F (segments st ++ [mkSegment tag cur])%list). by rewrite <- app_assoc.
Qed.

(** ** C10: an attribute name that extends a keyword *)

(** C10.  Let [tag] be an opening tag matched by the tokenizer whose text
    before the first '=' is none of 'color', 'size' and 'spacing'.  That
    text then extends one of the three keywords by at least one character;
    the round pushes a copy of the active style and emits no segment; and
    the next closing tag pops that level again. *)
Theorem C10_extended_attribute_pushes_copy (st : PState) (tag tag_type value : string)
    (cur : Style) :
  Tokenizer.is_markup_tag tag = true ->
  opening_tag tag = true ->
  PyStr.split_once "=" (PyStr.strip_ends tag) = Some (tag_type, value) ->
  tag_type <> "color" -> tag_type <> "size" -> tag_type <> "spacing" ->
  top (style_stack st) = Some cur ->
  (exists k ext, In k Tokenizer.keywords /\ tag_type = k ++ ext /\ ext <> "")
  /\ parse_part st tag
     = Some {| style_stack := (style_stack st ++ [cur])%list; segments := segments st |}
  /\ (forall c, closing_tag c = true -> parse_parts [tag; c] st = Some st).
Proof.
  intros Hm Ho Hs Hc1 Hc2 Hc3 Htop.
  unfold opening_tag in Ho. apply andb_true_iff in Ho as [Ht Hnc%negb_true_iff].
  assert (Hstep : parse_part st tag
     = Some {| style_stack := (style_stack st ++ [cur])%list; segments := segments st |}).
  { unfold parse_part. rewrite (is_tag_nonempty _ Ht), Ht, Hnc, Htop.
    unfold apply_tag. rewrite Hs.
    destruct (String.eqb_spec tag_type "color"); [done|].
    destruct (String.eqb_spec tag_type "size"); [done|].
    destruct (String.eqb_spec tag_type "spacing"); [done|]. done. }
  split; [|split; [done|]].
  - destruct (opening_tag_type tag tag_type value Hm Hnc Hs) as (k & ext & Hk & ->).
    exists k, ext. split; [|split; [done|]].
    + unfold Tokenizer.keywords. simpl. destruct Hk as [-> | [-> | ->]]; auto.
    + intros ->. rewrite append_nil_r in Hc1, Hc2, Hc3. tauto.
  - intros c Hc. cbn [parse_parts]. rewrite Hstep, (parse_part_closing _ c Hc).
    cbn [style_stack segments].
    assert ((1 <? Z.of_nat (length (style_stack st ++ [cur]))) = true) as ->.
    { apply Z.ltb_lt. rewrite length_app. simpl.
      apply top_nonempty in Htop. destruct (style_stack st); [done|]. simpl. lia. }
    rewrite pop_snoc. by destruct st.
Qed.

(** The two examples of the claim, and the level they leave open. *)
Example extended_names_push :
  option_map (map (fun seg => (text seg, font_size (style seg))))
    (_parse_rich_text (B := Builtins.ascii_builtins)
       "[size=20][sizes=10]A[/size]B[colorful=x]C[/color]D[/size]E"
       (mkStyle "#000000" 40 (F64.of_Z 1)))
  = Some [("A", 20); ("B", 20); ("C", 20); ("D", 20); ("E", 40)].
Proof. vm_compute. reflexivity. Qed.

(** ** C6: text without tags *)

(** C6 (as amended).  Text that is not empty, in which the tag pattern
    matches nowhere, and that is not taken for a tag as a whole, parses to
    exactly one segment: the text itself in the default style. *)
Theorem C6_plain_text_single_segment (txt : string) (default_options : Style) :
  Tokenizer.contains_tag txt = false ->
  txt <> "" ->
  taken_for_tag txt = false ->
  _parse_rich_text txt default_options = Some [mkSegment txt default_options].
Proof.
  intros Hno Hne Hodd. unfold _parse_rich_text.
  rewrite (re_split_no_tag txt Hno). cbn [parse_parts].
  unfold parse_part. destruct (String.eqb_spec txt "") as [|_]; [done|].
  cbn [initial_state style_stack segments]. unfold taken_for_tag in Hodd.
  destruct (is_tag txt); [|done].
  simpl in Hodd. apply orb_false_iff in Hodd as [-> Heq].
  unfold apply_tag. cbn [top last].
  destruct (PyStr.split_once "=" (PyStr.strip_ends txt)); [done|]. done.
Qed.

End ParserFacts.

(** C6 as stated fails on the empty text, which has no tag and parses to no
    segment at all. *)
Lemma C6_empty_text_counterexample :
  Tokenizer.contains_tag "" = false
  /\ _parse_rich_text (B := Builtins.ascii_builtins) "" (mkStyle "#000000" 40 (F64.of_Z 1))
     = Some []
  /\ _parse_rich_text (B := Builtins.ascii_builtins) "" (mkStyle "#000000" 40 (F64.of_Z 1))
     <> Some [mkSegment "" (mkStyle "#000000" 40 (F64.of_Z 1))].
Proof. repeat split; vm_compute; congruence. Qed.

(** Bracketed text that the tokenizer does not match is still taken for a
    tag by the test on its first and last character: no segment comes out
    of a would-be closing tag or of a content with '='. *)
Example bracketed_text_without_tag :
  Tokenizer.contains_tag "[/x]" = false
  /\ Tokenizer.contains_tag "[a=b]" = false
  /\ _parse_rich_text (B := Builtins.ascii_builtins) "[/x]" (mkStyle "#000000" 40 (F64.of_Z 1))
     = Some []
  /\ _parse_rich_text (B := Builtins.ascii_builtins) "[a=b]" (mkStyle "#000000" 40 (F64.of_Z 1))
     = Some []
  /\ _parse_rich_text (B := Builtins.ascii_builtins) "[x]" (mkStyle "#000000" 40 (F64.of_Z 1))
     = Some [mkSegment "[x]" (mkStyle "#000000" 40 (F64.of_Z 1))].
Proof. repeat split; vm_compute; reflexivity. Qed.

(* ===================================================================== *)
(** * The compositor *)
(* ===================================================================== *)

(** ** Slices whose indices are in range *)

Lemma range_in_bounds len a b :
  0 <= a <= b -> b <= Z.of_nat len ->
  PySlice.range len a b = (Z.to_nat a, Z.to_nat (b - a)).
Proof.
  intros H1 H2. unfold PySlice.range, PySlice.clamp.
  destruct (Z.ltb_spec a 0); [lia|]. destruct (Z.ltb_spec b 0); [lia|].
  f_equal; f_equal; lia.
Qed.

Lemma get_in_bounds {A} (l : list A) a b :
  0 <= a <= b -> b <= Z.of_nat (length l) ->
  PySlice.get l a b = take (Z.to_nat (b - a)) (drop (Z.to_nat a) l).
Proof. intros H1 H2. unfold PySlice.get. by rewrite range_in_bounds. Qed.

Lemma set_in_bounds {A} (l v : list A) a b :
  0 <= a <= b -> b <= Z.of_nat (length l) ->
  PySlice.set l a b v
  = (take (Z.to_nat a) l ++ v ++ drop (Z.to_nat a + Z.to_nat (b - a)) l)%list.
Proof. intros H1 H2. unfold PySlice.set. by rewrite range_in_bounds. Qed.

Lemma lookup_window {A} (l : list A) lo n i :
  (i < n)%nat -> take n (drop lo l) !! i = l !! (lo + i)%nat.
Proof. intros H. rewrite lookup_take_lt by done. apply lookup_drop. Qed.

Lemma length_window {A} (l : list A) lo n :
  (lo + n <= length l)%nat -> length (take n (drop lo l)) = n.
Proof. intros H. rewrite length_take, length_drop. lia. Qed.

Lemma lookup_splice {A} (l v : list A) lo n i :
  (lo + n <= length l)%nat -> length v = n ->
  (take lo l ++ v ++ drop (lo + n) l)%list !! i
  = if decide (lo <= i < lo + n)%nat then v !! (i - lo)%nat else l !! i.
Proof.
  intros Hl Hv. case_decide as Hi.
  - rewrite lookup_app_r by (rewrite length_take; lia).
    rewrite length_take, Nat.min_l by lia.
    by rewrite lookup_app_l by lia.
  - destruct (decide (i < lo)%nat).
    + rewrite lookup_app_l by (rewrite length_take; lia).
      by rewrite lookup_take_lt.
    + rewrite lookup_app_r by (rewrite length_take; lia).
      rewrite length_take, Nat.min_l by lia.
      rewrite lookup_app_r by lia.
      rewrite lookup_drop. f_equal. lia.
Qed.

Lemma length_splice {A} (l v : list A) lo n :
  (lo + n <= length l)%nat -> length v = n ->
  length (take lo l ++ v ++ drop (lo + n) l)%list = length l.
Proof. intros Hl Hv. rewrite !length_app, length_take, length_drop. lia. Qed.

(** ** The reshaped glyph buffer *)

Lemma length_chunks {A} h w (l : list A) : length (chunks h w l) = h.
Proof. revert l. induction h as [|h IH]; intros l; simpl; [done|]. by rewrite IH. Qed.

Lemma lookup_chunks {A} h w (l : list A) i :
  (i < h)%nat -> chunks h w l !! i = Some (take w (drop (i * w) l)).
Proof.
  revert l i. induction h as [|h IH]; intros l [|i] Hi; simpl; try lia.
  - done.
  - rewrite IH by lia. by rewrite drop_drop.
Qed.

Lemma lookup2_chunks {A} h w (l : list A) i j :
  (i < h)%nat -> (j < w)%nat ->
  lookup2 (chunks h w l) i j = l !! (i * w + j)%nat.
Proof.
  intros Hi Hj. unfold lookup2. rewrite lookup_chunks by done.
  by rewrite lookup_window.
Qed.

(** ** Blending two regions of one shape *)

Lemma zip_rows_pure {A B C} (f : A -> B -> option C) (g : A -> B -> C) la lb :
  (forall a b, a ∈ la -> b ∈ lb -> f a b = Some (g a b)) ->
  zip_rows f la lb = Some (zip_with g la lb).
Proof.
  revert lb. induction la as [|a la IH]; intros [|b lb] H; simpl; try done.
  rewrite H by (apply list_elem_of_here).
  rewrite IH; [done|]. intros a' b' Ha Hb. apply H; by apply list_elem_of_further.
Qed.

Lemma blend_row_same_length alpha_row target_row color_bgr :
  length alpha_row = length target_row ->
  blend_row alpha_row target_row color_bgr
  = Some (zip_with (fun a t => blend_pixel a t color_bgr) alpha_row target_row).
Proof.
  intros H. unfold blend_row, broadcast. by rewrite H, Nat.eqb_refl.
Qed.

Lemma blend_roi_same_shape alpha target_roi color_bgr n :
  length alpha = length target_roi ->
  Forall (fun row => length row = n) alpha ->
  Forall (fun row => length row = n) target_roi ->
  blend_roi alpha target_roi color_bgr
  = Some (zip_with (fun arow trow =>
                      zip_with (fun a t => blend_pixel a t color_bgr) arow trow)
            alpha target_roi).
Proof.
  intros Hl Ha Ht. unfold blend_roi, broadcast. rewrite Hl, Nat.eqb_refl.
  apply zip_rows_pure. intros a b Hina Hinb.
  apply blend_row_same_length.
  rewrite Forall_forall in Ha. rewrite Forall_forall in Ht.
  by rewrite (Ha a), (Ht b).
Qed.

Lemma lookup2_zip_with {A B C} (f : A -> B -> C) (la : list (list A)) (lb : list (list B)) i j :
  lookup2 (zip_with (zip_with f) la lb) i j
  = match lookup2 la i j, lookup2 lb i j with
    | Some a, Some b => Some (f a b)
    | _, _ => None
    end.
Proof.
  unfold lookup2. rewrite lookup_zip_with.
  destruct (la !! i) as [ra|]; simpl; [|done].
  destruct (lb !! i) as [rb|]; simpl; [|by destruct (ra !! j)].
  rewrite lookup_zip_with.
  destruct (ra !! j); simpl; [|done]. by destruct (rb !! j).
Qed.

Lemma lookup2_slice {A} (a : list (list A)) R0 nR C0 nC i j :
  (i < nR)%nat -> (j < nC)%nat ->
  lookup2 (map (fun row => take nC (drop C0 row)) (take nR (drop R0 a))) i j
  = lookup2 a (R0 + i) (C0 + j).
Proof.
  intros Hi Hj. unfold lookup2. rewrite list_lookup_fmap, lookup_window by done.
  destruct (a !! (R0 + i)%nat); simpl; [|done]. by apply lookup_window.
Qed.

Lemma lookup2_fmap {A B} (f : A -> B) (a : list (list A)) i j :
  lookup2 (map (map f) a) i j = f <$> lookup2 a i j.
Proof.
  unfold lookup2. rewrite list_lookup_fmap.
  destruct (a !! i); simpl; [|done]. apply list_lookup_fmap.
Qed.

(** ** 2-d slices whose indices are in range *)

Section Slice2d.

Context {A : Type}.
Variable a : list (list A).
Variable W : nat.
Hypothesis Hrows : Forall (fun row => length row = W) a.
Variables r0 r1 c0 c1 : Z.
Hypothesis Hr : 0 <= r0 <= r1.
Hypothesis Hr1 : r1 <= Z.of_nat (length a).
Hypothesis Hc : 0 <= c0 <= c1.
Hypothesis Hc1 : c1 <= Z.of_nat W.

Local Abbreviation R0 := (Z.to_nat r0).
Local Abbreviation nR := (Z.to_nat (r1 - r0)).
Local Abbreviation C0 := (Z.to_nat c0).
Local Abbreviation nC := (Z.to_nat (c1 - c0)).

Lemma slice2d_in_bounds :
  slice2d a r0 r1 c0 c1 = map (fun row => take nC (drop C0 row)) (take nR (drop R0 a)).
Proof.
  unfold slice2d. rewrite get_in_bounds by done.
  apply map_ext_in. intros row Hin. apply get_in_bounds; [done|].
  assert (Hrow : row ∈ a).
  { apply list_elem_of_In in Hin.
    by apply (subseteq_take nR), (subseteq_drop R0) in Hin. }
  rewrite Forall_forall in Hrows. by rewrite (Hrows row Hrow).
Qed.

Lemma slice2d_shape :
  length (slice2d a r0 r1 c0 c1) = nR
  /\ Forall (fun row => length row = nC) (slice2d a r0 r1 c0 c1).
Proof.
  rewrite slice2d_in_bounds. split.
  - rewrite length_map. apply length_window. lia.
  - apply Forall_fmap, Forall_forall. intros row Hin. simpl.
    apply (subseteq_take nR), (subseteq_drop R0) in Hin.
    rewrite Forall_forall in Hrows.
    apply length_window. rewrite (Hrows row Hin). lia.
Qed.

Lemma lookup2_slice2d i j :
  (i < nR)%nat -> (j < nC)%nat ->
  lookup2 (slice2d a r0 r1 c0 c1) i j = lookup2 a (R0 + i) (C0 + j).
Proof. intros Hi Hj. rewrite slice2d_in_bounds. by apply lookup2_slice. Qed.

Variable v : list (list A).
Hypothesis Hv : length v = nR.
Hypothesis Hvrows : Forall (fun row => length row = nC) v.

Lemma assign2d_in_bounds :
  assign2d a r0 r1 c0 c1 v
  = (take R0 a
     ++ zip_with (fun row vrow => take C0 row ++ vrow ++ drop (C0 + nC) row)
          (take nR (drop R0 a)) v
     ++ drop (R0 + nR) a)%list.
Proof.
  unfold assign2d. rewrite set_in_bounds, get_in_bounds by done.
  f_equal. f_equal.
  assert (Hsub : Forall (fun row => length row = W) (take nR (drop R0 a))).
  { by apply Forall_take, Forall_drop. }
  clear Hv Hvrows. revert v. induction Hsub as [|row rows' Hrow _ IH]; intros [|vrow v']; try done.
  simpl. f_equal; [|apply IH]. apply set_in_bounds; [done|]. by rewrite Hrow.
Qed.

Lemma assign2d_length : length (assign2d a r0 r1 c0 c1 v) = length a.
Proof.
  rewrite assign2d_in_bounds. apply length_splice; [lia|].
  rewrite length_zip_with, Hv, length_window; lia.
Qed.

Lemma lookup_assign2d r :
  assign2d a r0 r1 c0 c1 v !! r
  = match a !! r with
    | Some row =>
        if decide (R0 <= r < R0 + nR)%nat
        then match v !! (r - R0)%nat with
             | Some vrow => Some (take C0 row ++ vrow ++ drop (C0 + nC) row)%list
             | None => None
             end
        else Some row
    | None => None
    end.
Proof.
  rewrite assign2d_in_bounds.
  assert (Hbound : (R0 + nR <= length a)%nat) by lia.
  rewrite lookup_splice; [|done|].
  2:{ rewrite length_zip_with, Hv, length_window; [lia|done]. }
  case_decide as Hin.
  - rewrite lookup_zip_with, lookup_window by lia.
    replace (R0 + (r - R0))%nat with r by lia.
    destruct (a !! r) as [row|] eqn:E; simpl; [|done].
    by destruct (v !! (r - R0)%nat).
  - by destruct (a !! r).
Qed.

Lemma assign2d_rows : Forall (fun row => length row = W) (assign2d a r0 r1 c0 c1 v).
Proof.
  apply Forall_lookup. intros r row. rewrite lookup_assign2d.
  destruct (a !! r) as [row0|] eqn:E; [|done].
  assert (Hrow0 : length row0 = W).
  { rewrite Forall_lookup in Hrows. by apply (Hrows r). }
  case_decide; [|by intros ?; simplify_eq].
  destruct (v !! (r - R0)%nat) as [vrow|] eqn:Ev; [|done].
  intros ?; simplify_eq. apply length_splice; [lia|].
  rewrite Forall_lookup in Hvrows. by apply (Hvrows _ _ Ev).
Qed.

Lemma lookup2_assign2d r c :
  lookup2 (assign2d a r0 r1 c0 c1 v) r c
  = if decide ((R0 <= r < R0 + nR)%nat /\ (C0 <= c < C0 + nC)%nat)
    then lookup2 v (r - R0) (c - C0)
    else lookup2 a r c.
Proof.
  unfold lookup2 at 1. rewrite lookup_assign2d.
  destruct (a !! r) as [row|] eqn:E.
  - assert (Hrow : length row = W).
    { rewrite Forall_lookup in Hrows. by apply (Hrows r). }
    destruct (decide (R0 <= r < R0 + nR)%nat) as [Hin|Hout].
    + destruct (v !! (r - R0)%nat) as [vrow|] eqn:Ev.
      * assert (Hvrow : length vrow = nC).
        { rewrite Forall_lookup in Hvrows. by apply (Hvrows _ _ Ev). }
        rewrite lookup_splice; [|lia|done].
        destruct (decide (C0 <= c < C0 + nC)%nat).
        -- rewrite decide_True by done. unfold lookup2. by rewrite Ev.
        -- rewrite decide_False by tauto. unfold lookup2. by rewrite E.
      * apply lookup_ge_None in Ev. lia.
    + rewrite decide_False by tauto. unfold lookup2. by rewrite E.
  - case_decide as Hin.
    + apply lookup_ge_None in E. lia.
    + unfold lookup2. by rewrite E.
Qed.

End Slice2d.

(** ** The clip arithmetic *)

Lemma nothing_to_draw_false img bm x y :
  nothing_to_draw img bm x y = false ->
  (Nat.eqb (width bm) 0 || Nat.eqb (rows bm) 0 = false)
  /\ ((clipped_w (clip_of img bm x y) <=? 0) || (clipped_h (clip_of img bm x y) <=? 0) = false).
Proof. unfold nothing_to_draw. intros H. by apply orb_false_iff in H. Qed.

(** After the early returns, the slice of the image and the slice of the
    bitmap are within their arrays and are not empty. *)
Lemma clip_within img bm x y :
  nothing_to_draw img bm x y = false ->
  let cl := clip_of img bm x y in
  rect_within (target_rect x y cl) (img_h img) (img_w img)
  /\ rect_within (glyph_rect cl) (rows bm) (width bm)
  /\ 0 < clipped_w cl /\ 0 < clipped_h cl.
Proof.
  intros [_ H]%nothing_to_draw_false.
  apply orb_false_iff in H as [Hw%Z.leb_gt Hh%Z.leb_gt].
  revert Hw Hh. unfold rect_within, target_rect, glyph_rect, clip_of. simpl. lia.
Qed.

(** The slice of the image is the part of the image under the bitmap. *)
Lemma target_rect_under_glyph img bm x y r c :
  nothing_to_draw img bm x y = false ->
  (r < img_h img)%nat -> (c < img_w img)%nat ->
  in_rect (target_rect x y (clip_of img bm x y)) r c <-> under_glyph bm x y r c.
Proof.
  intros _ Hr Hc. unfold in_rect, under_glyph, target_rect, clip_of. simpl. lia.
Qed.

(** ** What [_draw_glyph] does to each pixel *)

Lemma pixel_at_bounds img r c p :
  wf_image img -> pixel_at img r c = Some p -> (r < img_h img)%nat /\ (c < img_w img)%nat.
Proof.
  unfold wf_image, pixel_at, lookup2, img_h. intros Hwf H.
  destruct (data img !! r) as [row|] eqn:E; [|done].
  split; [by apply lookup_lt_Some in E|].
  rewrite Forall_lookup in Hwf. rewrite <- (Hwf r row E). by apply lookup_lt_Some in H.
Qed.

Lemma pixel_at_is_Some img r c :
  wf_image img -> (r < img_h img)%nat -> (c < img_w img)%nat -> is_Some (pixel_at img r c).
Proof.
  unfold wf_image, pixel_at, lookup2, img_h. intros Hwf Hr Hc.
  destruct (lookup_lt_is_Some_2 _ _ Hr) as [row E]. rewrite E.
  apply lookup_lt_is_Some_2. rewrite Forall_lookup in Hwf. by rewrite (Hwf r row E).
Qed.

(** When something is left to draw and the buffer has [rows * width]
    bytes, [_draw_glyph] returns an image of the same shape in which every
    pixel under the bitmap is blended with the coverage byte that lies over
    it, and every other pixel is as before. *)
Lemma draw_glyph_pixels img bm x y color_bgr :
  wf_image img ->
  length (buffer bm) = (rows bm * width bm)%nat ->
  nothing_to_draw img bm x y = false ->
  exists img',
    _draw_glyph img bm x y color_bgr = Some img'
    /\ img_w img' = img_w img /\ img_h img' = img_h img /\ wf_image img'
    /\ forall r c,
         pixel_at img' r c
         = match pixel_at img r c with
           | Some p =>
               if decide (under_glyph bm x y r c)
               then match coverage_at bm (Z.to_nat (Z.of_nat r - y)) (Z.to_nat (Z.of_nat c - x)) with
                    | Some cov => Some (blend_pixel (alpha_of cov) p color_bgr)
                    | None => None
                    end
               else Some p
           | None => None
           end.
Proof.
  intros Hwf Hbuf Hdraw.
  destruct (clip_within img bm x y Hdraw) as (Ht & Hg & Hcw & Hch).
  destruct (nothing_to_draw_false _ _ _ _ Hdraw) as [E1 E2].
  unfold _draw_glyph. rewrite E1, E2.
  unfold reshape. rewrite Hbuf, Nat.eqb_refl.
  set (cl := clip_of img bm x y) in *.
  set (tr := target_rect x y cl) in *. set (gr := glyph_rect cl) in *.
  destruct Ht as (Htr & Htr1 & Htc & Htc1). destruct Hg as (Hgr & Hgr1 & Hgc & Hgc1).
  assert (Hgrows : Forall (fun row : list Byte.byte => length row = width bm)
                     (chunks (rows bm) (width bm) (buffer bm))).
  { apply Forall_lookup. intros i row Hi.
    assert (Hlt : (i < rows bm)%nat).
    { apply lookup_lt_Some in Hi. by rewrite length_chunks in Hi. }
    rewrite lookup_chunks in Hi by done. simplify_eq.
    rewrite length_take, length_drop. nia. }
  assert (Hsame_r : r1 gr - r0 gr = r1 tr - r0 tr) by (subst tr gr; simpl; lia).
  assert (Hsame_c : c1 gr - c0 gr = c1 tr - c0 tr) by (subst tr gr; simpl; lia).
  pose proof (slice2d_shape (data img) (img_w img) Hwf (r0 tr) (r1 tr) (c0 tr) (c1 tr)
                Htr Htr1 Htc Htc1) as [Hts1 Hts2].
  pose proof (slice2d_shape _ (width bm) Hgrows (r0 gr) (r1 gr) (c0 gr) (c1 gr)
                Hgr ltac:(by rewrite length_chunks) Hgc Hgc1) as [Hgs1 Hgs2].
  rewrite Hsame_r in Hgs1. rewrite Hsame_c in Hgs2.
  set (target_roi := slice2d (data img) (r0 tr) (r1 tr) (c0 tr) (c1 tr)) in *.
  set (glyph_roi := slice2d _ (r0 gr) (r1 gr) (c0 gr) (c1 gr)) in *.
  rewrite (blend_roi_same_shape _ _ _ (Z.to_nat (c1 tr - c0 tr))); cycle 1.
  { by rewrite length_map, Hgs1, Hts1. }
  { apply Forall_fmap. eapply Forall_impl; [exact Hgs2|]. intros row Hrow. simpl.
    by rewrite length_map. }
  { done. }
  set (blended := zip_with _ _ target_roi).
  assert (Hb1 : length blended = Z.to_nat (r1 tr - r0 tr)).
  { subst blended. rewrite length_zip_with, length_map, Hgs1, Hts1. lia. }
  assert (Hb2 : Forall (fun row => length row = Z.to_nat (c1 tr - c0 tr)) blended).
  { subst blended. apply Forall_lookup. intros i row. rewrite lookup_zip_with.
    rewrite list_lookup_fmap.
    destruct (glyph_roi !! i) as [grow|] eqn:Eg; simpl; [|done].
    destruct (target_roi !! i) as [trow|] eqn:Et; simpl; [|done].
    intros ?; simplify_eq.
    rewrite Forall_lookup in Hgs2. rewrite Forall_lookup in Hts2.
    rewrite length_zip_with, length_map, (Hgs2 _ _ Eg), (Hts2 _ _ Et).
    subst tr cl. simpl. lia. }
  eexists. split; [done|]. split; [done|]. split.
  { unfold img_h. simpl. by apply (assign2d_length _ (img_w img)). }
  split.
  { unfold wf_image. simpl. by apply assign2d_rows. }
  intros r c. unfold pixel_at. cbn [data].
  rewrite (lookup2_assign2d _ (img_w img)) by done.
  destruct (lookup2 (data img) r c) as [p|] eqn:Ep.
  - destruct (pixel_at_bounds img r c p Hwf Ep) as [Hr Hc].
    pose proof (target_rect_under_glyph img bm x y r c Hdraw Hr Hc) as Hiff.
    fold cl tr in Hiff. unfold in_rect in Hiff.
    destruct (decide (under_glyph bm x y r c)) as [Hu|Hu].
    + apply Hiff in Hu.
      rewrite decide_True by lia.
      subst blended. rewrite lookup2_zip_with, lookup2_fmap.
      subst glyph_roi target_roi.
      rewrite (lookup2_slice2d _ (width bm)) by (rewrite ?length_chunks; lia || done).
      rewrite (lookup2_slice2d _ (img_w img)) by (lia || done).
      replace (Z.to_nat (r0 tr) + (r - Z.to_nat (r0 tr)))%nat with r by lia.
      replace (Z.to_nat (c0 tr) + (c - Z.to_nat (c0 tr)))%nat with c by lia.
      rewrite Ep.
      assert (Hgi : (Z.to_nat (r0 gr) + (r - Z.to_nat (r0 tr)))%nat = Z.to_nat (Z.of_nat r - y)).
      { subst tr gr. simpl in *. lia. }
      assert (Hgj : (Z.to_nat (c0 gr) + (c - Z.to_nat (c0 tr)))%nat = Z.to_nat (Z.of_nat c - x)).
      { subst tr gr. simpl in *. lia. }
      rewrite Hgi, Hgj.
      assert (Hi : (Z.to_nat (Z.of_nat r - y) < rows bm)%nat) by (subst tr gr cl; simpl in *; lia).
      assert (Hj : (Z.to_nat (Z.of_nat c - x) < width bm)%nat) by (subst tr gr cl; simpl in *; lia).
      rewrite lookup2_chunks by done.
      unfold coverage_at. destruct (Nat.ltb_spec (Z.to_nat (Z.of_nat c - x)) (width bm)); [|lia].
      by destruct (buffer bm !! _).
    + rewrite decide_False; [done|]. intros Hin. apply Hu, Hiff. lia.
  - case_decide as Hin; [|done].
    exfalso. unfold lookup2 in Ep.
    destruct (data img !! r) as [row|] eqn:Er.
    + apply lookup_ge_None in Ep. unfold wf_image in Hwf. rewrite Forall_lookup in Hwf.
      rewrite (Hwf r row Er) in Ep. lia.
    + apply lookup_ge_None in Er. unfold img_h in *. lia.
Qed.

(** ** The blend at the two ends of the coverage range *)

Lemma byte_to_Z_range (b : Byte.byte) : 0 <= byte_to_Z b <= 255.
Proof.
  unfold byte_to_Z. pose proof (Byte.to_N_bounded b) as H. lia.
Qed.

Lemma uint8_of_byte (b : Byte.byte) : uint8_of_Z (byte_to_Z b) = b.
Proof.
  unfold uint8_of_Z. pose proof (byte_to_Z_range b).
  rewrite Z.mod_small by lia. unfold byte_to_Z.
  by rewrite N2Z.id, Byte.of_to_N.
Qed.

Lemma byte_of_uint8 (z : Z) : 0 <= z <= 255 -> byte_to_Z (uint8_of_Z z) = z.
Proof.
  intros H. unfold uint8_of_Z, byte_to_Z. rewrite Z.mod_small by lia.
  destruct (Byte.of_N (Z.to_N z)) as [b|] eqn:E.
  - apply Byte.to_of_N in E. rewrite E. lia.
  - apply Byte.of_N_None_iff in E. lia.
Qed.

(** Every channel value is the value of a byte: a statement about the
    256 bytes holds for every colour channel in range. *)
Lemma channel_is_byte (P : Z -> Prop) :
  (forall b : Byte.byte, P (byte_to_Z b)) -> forall z, 0 <= z <= 255 -> P z.
Proof. intros H z Hz. rewrite <- (byte_of_uint8 z Hz). apply H. Qed.

Lemma alpha_of_x00 : alpha_of Byte.x00 = f_zero.
Proof. vm_compute. reflexivity. Qed.

Lemma alpha_of_xff : alpha_of Byte.xff = f_one.
Proof. vm_compute. reflexivity. Qed.

Lemma one_minus_zero : F64.sub f_one f_zero = f_one.
Proof. vm_compute. reflexivity. Qed.

Lemma one_minus_one : F64.sub f_one f_one = f_zero.
Proof. vm_compute. reflexivity. Qed.

Lemma zero_times_byte (b : Byte.byte) : F64.mul f_zero (F64.of_Z (byte_to_Z b)) = f_zero.
Proof. destruct b; vm_compute; reflexivity. Qed.

Lemma one_times_byte_plus_zero (b : Byte.byte) :
  astype_uint8 (F64.add (F64.mul f_one (F64.of_Z (byte_to_Z b))) f_zero) = b.
Proof. destruct b; vm_compute; reflexivity. Qed.

Lemma zero_plus_one_times_byte (b : Byte.byte) :
  astype_uint8 (F64.add f_zero (F64.mul f_one (F64.of_Z (byte_to_Z b)))) = b.
Proof. destruct b; vm_compute; reflexivity. Qed.

(** Coverage 0: the channel keeps the value of the pixel. *)
Lemma blend_channel_cov0 (t : Byte.byte) (col : Z) :
  0 <= col <= 255 -> astype_uint8 (blend_channel (alpha_of Byte.x00) t col) = t.
Proof.
  revert col. apply channel_is_byte. intros cb.
  unfold blend_channel.
  by rewrite alpha_of_x00, one_minus_zero, zero_times_byte, one_times_byte_plus_zero.
Qed.

(** Coverage 255: the channel takes the value of the colour. *)
Lemma blend_channel_cov255 (t : Byte.byte) (col : Z) :
  0 <= col <= 255 -> astype_uint8 (blend_channel (alpha_of Byte.xff) t col) = uint8_of_Z col.
Proof.
  revert col. apply channel_is_byte. intros cb.
  unfold blend_channel.
  by rewrite alpha_of_xff, one_minus_one, zero_times_byte, zero_plus_one_times_byte, uint8_of_byte.
Qed.

(** ** C1: the compositor stays inside the image *)

Lemma draw_glyph_nothing img bm x y color_bgr :
  nothing_to_draw img bm x y = true -> _draw_glyph img bm x y color_bgr = Some img.
Proof.
  unfold nothing_to_draw, _draw_glyph. intros H.
  destruct (Nat.eqb (width bm) 0 || Nat.eqb (rows bm) 0); [done|].
  cbn [orb] in H. cbv zeta in H. by rewrite H.
Qed.

Lemma draw_glyph_buffer img bm x y color_bgr img' :
  nothing_to_draw img bm x y = false ->
  _draw_glyph img bm x y color_bgr = Some img' ->
  length (buffer bm) = (rows bm * width bm)%nat.
Proof.
  intros Hdraw. destruct (nothing_to_draw_false _ _ _ _ Hdraw) as [E1 E2].
  unfold _draw_glyph, reshape. rewrite E1, E2.
  destruct (Nat.eqb_spec (length (buffer bm)) (rows bm * width bm)); done.
Qed.

(** With a buffer of [rows * width] bytes, [_draw_glyph] returns. *)
Lemma draw_glyph_total img bm x y color_bgr :
  wf_image img ->
  length (buffer bm) = (rows bm * width bm)%nat ->
  is_Some (_draw_glyph img bm x y color_bgr).
Proof.
  intros Hwf Hbuf. destruct (nothing_to_draw img bm x y) eqn:Hdraw.
  - rewrite (draw_glyph_nothing _ _ _ _ color_bgr Hdraw). by eexists.
  - destruct (draw_glyph_pixels img bm x y color_bgr Hwf Hbuf Hdraw) as (img2 & -> & _).
    by eexists.
Qed.

(** C1.  For every image, bitmap, colour and position: the index
    expressions of the slices that [_draw_glyph] takes of the image and of
    the bitmap are indices of these arrays (so the function reads and writes
    elements of the image and reads elements of the bitmap only); when the
    clipped width or height is zero or negative the image comes back as it
    was; and whenever an image comes back it has the shape of the old one
    and every pixel outside the slice is unchanged.  With a buffer of
    [rows * width] bytes an image does come back. *)
Theorem C1_draw_glyph_within_image (img : Image) (glyph_bitmap : Bitmap) (x y : Z)
    (color_bgr : Z * Z * Z) :
  wf_image img ->
  (nothing_to_draw img glyph_bitmap x y = false ->
     rect_within (target_rect x y (clip_of img glyph_bitmap x y)) (img_h img) (img_w img)
     /\ rect_within (glyph_rect (clip_of img glyph_bitmap x y))
          (rows glyph_bitmap) (width glyph_bitmap))
  /\ (clipped_w (clip_of img glyph_bitmap x y) <= 0
      \/ clipped_h (clip_of img glyph_bitmap x y) <= 0 ->
      _draw_glyph img glyph_bitmap x y color_bgr = Some img)
  /\ (forall img', _draw_glyph img glyph_bitmap x y color_bgr = Some img' ->
        img_w img' = img_w img /\ img_h img' = img_h img
        /\ forall r c,
             ~ in_rect (target_rect x y (clip_of img glyph_bitmap x y)) r c ->
             pixel_at img' r c = pixel_at img r c)
  /\ (length (buffer glyph_bitmap) = (rows glyph_bitmap * width glyph_bitmap)%nat ->
      is_Some (_draw_glyph img glyph_bitmap x y color_bgr)).
Proof.
  intros Hwf. split; [|split; [|split]].
  - intros Hdraw. destruct (clip_within _ _ _ _ Hdraw) as (? & ? & _). done.
  - intros Hclip. apply draw_glyph_nothing. unfold nothing_to_draw.
    apply orb_true_iff. right. apply orb_true_iff.
    destruct Hclip as [H|H]; [left|right]; by apply Z.leb_le.
  - intros img' Hres.
    destruct (nothing_to_draw img glyph_bitmap x y) eqn:Hdraw.
    + rewrite (draw_glyph_nothing _ _ _ _ color_bgr Hdraw) in Hres. by simplify_eq.
    + pose proof (draw_glyph_buffer _ _ _ _ _ _ Hdraw Hres) as Hbuf.
      destruct (draw_glyph_pixels img glyph_bitmap x y color_bgr Hwf Hbuf Hdraw)
        as (img2 & Hres2 & Hw & Hh & _ & Hpix).
      rewrite Hres in Hres2. simplify_eq. split; [done|]. split; [done|].
      intros r c Hout. rewrite Hpix.
      destruct (pixel_at img r c) as [p|] eqn:Ep; [|done].
      destruct (pixel_at_bounds img r c p Hwf Ep) as [Hr Hc].
      rewrite decide_False; [done|].
      by rewrite <- (target_rect_under_glyph img glyph_bitmap x y r c Hdraw Hr Hc).
  - intros Hbuf. by apply draw_glyph_total.
Qed.

(** ** C7: coverage 0 and coverage 255 *)

(** C7.  Let the pixel in row [r] and column [c] of the image lie under
    the bitmap placed at [(x, y)], with the coverage byte [cov] over it, and
    let the colour channels be 8-bit values.  Then [_draw_glyph] returns an
    image in which that pixel is unchanged when [cov] is 0, and is exactly
    the colour, channel by channel, when [cov] is 255. *)
Theorem C7_blend_boundary_cases (img : Image) (glyph_bitmap : Bitmap) (x y : Z)
    (cb cg cr : Z) (r c : nat) (p : Pixel) (cov : Byte.byte) :
  wf_image img ->
  length (buffer glyph_bitmap) = (rows glyph_bitmap * width glyph_bitmap)%nat ->
  0 <= cb <= 255 -> 0 <= cg <= 255 -> 0 <= cr <= 255 ->
  pixel_at img r c = Some p ->
  under_glyph glyph_bitmap x y r c ->
  coverage_at glyph_bitmap (Z.to_nat (Z.of_nat r - y)) (Z.to_nat (Z.of_nat c - x)) = Some cov ->
  exists img',
    _draw_glyph img glyph_bitmap x y (cb, cg, cr) = Some img'
    /\ (cov = Byte.x00 -> pixel_at img' r c = Some p)
    /\ (cov = Byte.xff ->
        exists q, pixel_at img' r c = Some q
          /\ (byte_to_Z q.1.1, byte_to_Z q.1.2, byte_to_Z q.2) = (cb, cg, cr)).
Proof.
  intros Hwf Hbuf Hb Hg Hr Hp Hu Hcov.
  destruct (pixel_at_bounds img r c p Hwf Hp) as [Hri Hci].
  assert (Hdraw : nothing_to_draw img glyph_bitmap x y = false).
  { unfold nothing_to_draw, clip_of. cbn [clipped_w clipped_h].
    unfold under_glyph in Hu.
    apply orb_false_iff. split; apply orb_false_iff; split.
    - apply Nat.eqb_neq. lia.
    - apply Nat.eqb_neq. lia.
    - apply Z.leb_gt. lia.
    - apply Z.leb_gt. lia. }
  destruct (draw_glyph_pixels img glyph_bitmap x y (cb, cg, cr) Hwf Hbuf Hdraw)
    as (img' & Hres & _ & _ & _ & Hpix).
  exists img'. split; [done|].
  specialize (Hpix r c). rewrite Hp, decide_True, Hcov in Hpix by done.
  destruct p as [[tb tg] tr]. split.
  - intros ->. rewrite Hpix. unfold blend_pixel.
    by rewrite !blend_channel_cov0.
  - intros ->. rewrite Hpix. unfold blend_pixel.
    rewrite !blend_channel_cov255 by done.
    eexists. split; [done|]. simpl. by rewrite !byte_of_uint8.
Qed.

(* ===================================================================== *)
(** * The layout loop *)
(* ===================================================================== *)

(** ** [int()] of a float is the truncation of its value *)

Lemma Qfloor_scaled_up (m : positive) (e : Z) :
  0 <= e -> Qfloor (inject_Z (Z.pos m) * Qpower 2 e) = Z.shiftl (Z.pos m) e.
Proof.
  intros He. rewrite Z.shiftl_mul_pow2 by done.
  rewrite <- Qfloor_Z. apply Qfloor_comp.
  rewrite inject_Z_mult. by rewrite <- (Zpower_Qpower 2 e He).
Qed.

Lemma Qfloor_scaled_down (m : positive) (e : Z) :
  e < 0 -> Qfloor (inject_Z (Z.pos m) * Qpower 2 e) = Z.shiftr (Z.pos m) (- e).
Proof.
  intros He. rewrite Z.shiftr_div_pow2 by lia.
  rewrite Zdiv_Qdiv. apply Qfloor_comp.
  replace e with (- (- e)) at 1 by lia.
  rewrite Qpower_opp. rewrite <- (Zpower_Qpower 2 (- e)) by lia. reflexivity.
Qed.

Lemma Qpower_2_pos (e : Z) : (0 < Qpower 2 e)%Q.
Proof. apply Qpower_0_lt. reflexivity. Qed.

Lemma trunc_is_Qtrunc (f : F64.float) (q : Q) :
  F64.to_Q f = Some q -> F64.trunc f = Some (Qtrunc q).
Proof.
  destruct f as [s| |  |s m e]; simpl; try done.
  - intros ?; simplify_eq. reflexivity.
  - intros ?; simplify_eq. f_equal.
    set (mag := (inject_Z (Z.pos m) * Qpower 2 e)%Q).
    assert (Hpos : (0 < mag)%Q).
    { subst mag. apply Qmult_lt_0_compat; [reflexivity|apply Qpower_2_pos]. }
    assert (Hfloor : Qfloor mag = if 0 <=? e then Z.shiftl (Z.pos m) e
                                  else Z.shiftr (Z.pos m) (- e)).
    { subst mag. destruct (Z.leb_spec 0 e).
      - by apply Qfloor_scaled_up.
      - by apply Qfloor_scaled_down. }
    rewrite <- Hfloor. unfold Qtrunc. destruct s.
    + destruct (Qle_bool 0 (- mag)) eqn:E.
      * apply Qle_bool_iff in E. exfalso.
        apply (Qlt_irrefl 0). apply Qlt_le_trans with mag; [done|].
        apply Qopp_le_compat in E. by rewrite Qopp_involutive in E.
      * unfold Qceiling. f_equal. apply Qfloor_comp. symmetry. apply Qopp_involutive.
    + assert (Qle_bool 0 mag = true) as ->; [|done].
      apply Qle_bool_iff. by apply Qlt_le_weak.
Qed.

(** ** C4: the line gap *)

(** C4 as stated fails: with a line height of 5 pixels and a spacing of
    1.75 the product is 8.75, the line gap of the code is 8, and 8 is not a
    nearest integer of 8.75 (9 is). *)
Lemma C4_truncation_counterexample :
  line_gap_of (Builtins.mono_face 10 5) 40 Samples.spacing_1_75 = Some 8
  /\ match F64.to_Q (F64.mul (F64.of_Z 5) Samples.spacing_1_75) with
     | Some q => (q == 35 # 4)%Q /\ ~ nearest_integer q 8 /\ nearest_integer q 9
     | None => False
     end.
Proof.
  split; [vm_compute; reflexivity|].
  vm_compute. split; [reflexivity|]. split.
  - intros H. apply H. reflexivity.
  - discriminate.
Qed.

(** C4 (as amended).  For every segment whose product of line height and
    spacing is a finite float of value [q], the line gap is [q] truncated
    toward zero, and it is the line gap that the character loop of this
    segment runs with. *)
Theorem C4_line_gap_is_truncated_product {B : PyBuiltins} (face : Face) (x_start : Z)
    (max_width : option Z) (st : Pen) (segment : Segment) (q : Q) (color_bgr : Z * Z * Z) :
  F64.to_Q (F64.mul (F64.of_Z (Z.shiftr (size_height face (font_size (style segment))) 6))
              (spacing (style segment))) = Some q ->
  hex_to_bgr (color (style segment)) = Some color_bgr ->
  line_gap_of face (font_size (style segment)) (spacing (style segment)) = Some (Qtrunc q)
  /\ draw_segment face x_start max_width st segment
     = draw_chars face x_start max_width (font_size (style segment))
         (Z.shiftr (size_ascender face (font_size (style segment))) 6)
         (Qtrunc q) color_bgr (text segment) st.
Proof.
  intros Hq Hcol.
  assert (Hgap : line_gap_of face (font_size (style segment)) (spacing (style segment))
                 = Some (Qtrunc q)).
  { unfold line_gap_of. by apply trunc_is_Qtrunc. }
  split; [done|]. unfold draw_segment. by rewrite Hcol, Hgap.
Qed.

(** ** C8: explicit newlines *)

Lemma draw_chars_app {B : PyBuiltins} face x_start max_width sz asc gap col (t1 t2 : string) st :
  draw_chars face x_start max_width sz asc gap col (t1 ++ t2) st
  = match draw_chars face x_start max_width sz asc gap col t1 st with
    | Some st1 => draw_chars face x_start max_width sz asc gap col t2 st1
    | None => None
    end.
Proof.
  revert st. induction t1 as [|ch t1 IH]; intros st; [done|].
  cbn [String.append draw_chars].
  destruct (draw_char face x_start max_width sz asc gap col st ch); [apply IH|done].
Qed.

(** C8.  A newline character met in the text of a segment, after the
    characters [before] have brought the loop to the state [st1], draws no
    glyph (image and list of drawn glyphs stay as in [st1]), sets [pen_x]
    to the start x, adds to [pen_y] the line gap computed for the style of
    this segment, leaves no previous character for the kerning, and the loop
    goes on with the characters [after]. *)
Theorem C8_newline_resets_pen {B : PyBuiltins} (face : Face) (x_start : Z)
    (max_width : option Z) (st st1 : Pen) (segment : Segment) (before after : string)
    (color_bgr : Z * Z * Z) (line_gap : Z) :
  text segment = before ++ String newline after ->
  hex_to_bgr (color (style segment)) = Some color_bgr ->
  line_gap_of face (font_size (style segment)) (spacing (style segment)) = Some line_gap ->
  draw_chars face x_start max_width (font_size (style segment))
    (Z.shiftr (size_ascender face (font_size (style segment))) 6)
    line_gap color_bgr before st = Some st1 ->
  draw_char face x_start max_width (font_size (style segment))
    (Z.shiftr (size_ascender face (font_size (style segment))) 6)
    line_gap color_bgr st1 newline
  = Some {| pen_x := x_start; pen_y := pen_y st1 + line_gap; previous_char := None;
            image := image st1; drawn := drawn st1 |}
  /\ draw_segment face x_start max_width st segment
     = draw_chars face x_start max_width (font_size (style segment))
         (Z.shiftr (size_ascender face (font_size (style segment))) 6)
         line_gap color_bgr after
         {| pen_x := x_start; pen_y := pen_y st1 + line_gap; previous_char := None;
            image := image st1; drawn := drawn st1 |}.
Proof.
  intros Htext Hcol Hgap Hbefore. split; [done|].
  unfold draw_segment. rewrite Hcol, Hgap, Htext, draw_chars_app, Hbefore. done.
Qed.

(** ** C5: wrapping at the maximal width *)

(** C5 as stated fails when the pen is left of the line start.  With the
    stub face [kern_face], a start at x = 0 and a maximal width of 10, the
    text "ab" leaves the pen at x = -2.  The next character 'c' has an
    advance of 20: the pen with kerning and advance exceeds the limit and
    the pen is not at the line start, yet the code does not wrap, and draws
    'c' at x = -2 on the same line. *)
Lemma C5_pen_left_of_start_counterexample :
  match draw_text (B := Builtins.ascii_builtins) Samples.kern_face Samples.image_3x4
          "ab" (0, 0) Samples.no_options (Some 10) Samples.spacing_1_2 with
  | Some st =>
      pen_x st = -2
      /\ (pen_x st
          + Z.shiftr (get_kerning_x Samples.kern_face 40 (previous_char st) "c") 6
          + Z.shiftr (advance_x (load_char Samples.kern_face 40 "c")) 6 > 0 + 10
          /\ pen_x st <> 0)
      /\ wraps 0 (Some 10) (pen_x st)
           (Z.shiftr (get_kerning_x Samples.kern_face 40 (previous_char st) "c") 6)
           (Z.shiftr (advance_x (load_char Samples.kern_face 40 "c")) 6) = false
  | None => False
  end
  /\ option_map (fun st => (drawn st, pen_y st))
       (draw_text (B := Builtins.ascii_builtins) Samples.kern_face Samples.image_3x4
          "abc" (0, 0) Samples.no_options (Some 10) Samples.spacing_1_2)
     = Some ([("a"%char, 0, 0); ("b"%char, -3, 0); ("c"%char, -2, 0)], 0).
Proof.
  split.
  - vm_compute. repeat split; congruence.
  - vm_compute. reflexivity.
Qed.

(** C5 (as amended).  With a maximal width [W > 0], before a character
    that is not a newline the code wraps exactly when the pen with kerning
    and advance exceeds [x_start + W] and the pen is to the right of the line
    start.  The character is always drawn, and the state after it is as
    follows: on a wrap the glyph is drawn at [x_start] plus its left bearing,
    one line gap further down, and the pen is at [x_start] plus the advance
    (the kerning is dropped); without a wrap the glyph is drawn at the pen
    plus kerning plus left bearing on the same line. *)
Theorem C5_wrap_at_max_width (face : Face) (x_start W : Z)
    (current_font_size ascender line_gap : Z) (color_bgr : Z * Z * Z) (st : Pen) (char : ascii) :
  0 < W ->
  char <> newline ->
  wf_image (image st) ->
  length (buffer (bitmap (load_char face current_font_size char)))
  = (rows (bitmap (load_char face current_font_size char))
     * width (bitmap (load_char face current_font_size char)))%nat ->
  (wraps x_start (Some W) (pen_x st)
     (Z.shiftr (get_kerning_x face current_font_size (previous_char st) char) 6)
     (Z.shiftr (advance_x (load_char face current_font_size char)) 6) = true
   <-> (pen_x st
        + Z.shiftr (get_kerning_x face current_font_size (previous_char st) char) 6
        + Z.shiftr (advance_x (load_char face current_font_size char)) 6 > x_start + W
        /\ pen_x st > x_start))
  /\ exists st',
       draw_char face x_start (Some W) current_font_size ascender line_gap color_bgr st char
       = Some st'
       /\ previous_char st' = Some char
       /\ if wraps x_start (Some W) (pen_x st)
               (Z.shiftr (get_kerning_x face current_font_size (previous_char st) char) 6)
               (Z.shiftr (advance_x (load_char face current_font_size char)) 6)
          then
            drawn st'
            = (drawn st
               ++ [(char,
                    x_start + bitmap_left (load_char face current_font_size char),
                    pen_y st + line_gap + ascender
                    - bitmap_top (load_char face current_font_size char))])%list
            /\ pen_y st' = pen_y st + line_gap
            /\ pen_x st'
               = x_start + Z.shiftr (advance_x (load_char face current_font_size char)) 6
          else
            drawn st'
            = (drawn st
               ++ [(char,
                    pen_x st
                    + Z.shiftr (get_kerning_x face current_font_size (previous_char st) char) 6
                    + bitmap_left (load_char face current_font_size char),
                    pen_y st + ascender
                    - bitmap_top (load_char face current_font_size char))])%list
            /\ pen_y st' = pen_y st
            /\ pen_x st'
               = pen_x st
                 + Z.shiftr (get_kerning_x face current_font_size (previous_char st) char) 6
                 + Z.shiftr (advance_x (load_char face current_font_size char)) 6.
Proof.
  intros HW Hnl Hwf Hbuf. split.
  - generalize (Z.shiftr (get_kerning_x face current_font_size (previous_char st) char) 6).
    generalize (Z.shiftr (advance_x (load_char face current_font_size char)) 6).
    intros advance kerning.
    unfold wraps. destruct (Z.eqb_spec W 0) as [->|_]; [lia|]. cbn [negb andb].
    rewrite !Z.gtb_ltb.
    destruct (Z.ltb_spec (x_start + W) (pen_x st + kerning + advance));
      destruct (Z.ltb_spec x_start (pen_x st)); cbn [andb];
      (split; [intros ?|intros [? ?]]; try done; try lia).
  - unfold draw_char. destruct (Ascii.eqb_spec char newline) as [|_]; [done|].
    set (glyph := load_char face current_font_size char) in *.
    set (kerning := Z.shiftr (get_kerning_x face current_font_size (previous_char st) char) 6).
    set (advance := Z.shiftr (advance_x glyph) 6).
    destruct (wraps x_start (Some W) (pen_x st) kerning advance).
    + destruct (draw_glyph_total (image st) (bitmap glyph)
                  (x_start + 0 + bitmap_left glyph)
                  (pen_y st + line_gap + ascender - bitmap_top glyph) color_bgr Hwf Hbuf)
        as [img' Himg].
      rewrite Himg. clearbody kerning advance glyph.
      eexists. split; [done|]. cbn [previous_char drawn pen_x pen_y]. split; [done|].
      rewrite Z.add_0_r. done.
    + destruct (draw_glyph_total (image st) (bitmap glyph)
                  (pen_x st + kerning + bitmap_left glyph)
                  (pen_y st + ascender - bitmap_top glyph) color_bgr Hwf Hbuf)
        as [img' Himg].
      rewrite Himg. clearbody kerning advance glyph.
      eexists. split; [done|]. cbn [previous_char drawn pen_x pen_y]. done.
Qed.

(* ===================================================================== *)
(** * The theorems at sample inputs *)
(* ===================================================================== *)

(** The wrap scenario of the specification: a monospaced face with an
    advance of 10 pixels and a line height of 12, a start at x = 5 and a
    maximal width of 25.  The third character is the first to exceed
    x = 30: it is drawn at the start x, one line gap (12 * 1.2 = 14.4,
    truncated to 14) further down. *)
Example monospaced_wrap :
  option_map drawn
    (draw_text (B := Builtins.ascii_builtins) (Builtins.mono_face 10 12) Samples.image_3x4
       "abcde" (5, 0) Samples.no_options (Some 25) Samples.spacing_1_2)
  = Some [("a"%char, 5, 0); ("b"%char, 15, 0); ("c"%char, 5, 14);
          ("d"%char, 15, 14); ("e"%char, 5, 28)].
Proof. vm_compute. reflexivity. Qed.

(** A whole render on [image_3x4] with the face [block_face]: the colour
    tag, the escaped newline, the blend of the four coverages of the first
    glyph at (1, 0), and the second glyph below the canvas, which changes
    nothing. *)
Example render_two_lines :
  option_map
    (fun st =>
       (map (map (fun p : Pixel => (byte_to_Z p.1.1, byte_to_Z p.1.2, byte_to_Z p.2)))
          (data (image st)),
        drawn st, pen_x st, pen_y st))
    (draw_text (B := Builtins.ascii_builtins) Samples.block_face Samples.image_3x4
       (String.append "[color=#ff8000]a" (String backslash "nb")) (1, 0)
       Samples.no_options None Samples.spacing_1_2)
  = Some ([ [(0, 1, 2); (10, 11, 12); (0, 128, 255); (30, 31, 32)];
            [(40, 41, 42); (24, 89, 153); (44, 77, 110); (70, 71, 72)];
            [(80, 81, 82); (90, 91, 92); (100, 101, 102); (110, 111, 112)] ],
          [("a"%char, 1, 0); ("b"%char, 1, 6)], 4, 6).
Proof. vm_compute. reflexivity. Qed.

Lemma wf_image_3x4 : wf_image Samples.image_3x4.
Proof. repeat constructor. Qed.

(** C1 at a bitmap placed far off the canvas of [image_3x4]: the image comes
    back as it was. *)
Lemma C1_witness :
  wf_image Samples.image_3x4
  /\ _draw_glyph Samples.image_3x4 Samples.glyph_2x2 (-5) 100 (200, 201, 202)
     = Some Samples.image_3x4.
Proof.
  split; [exact wf_image_3x4|].
  destruct (C1_draw_glyph_within_image Samples.image_3x4 Samples.glyph_2x2 (-5) 100
              (200, 201, 202) wf_image_3x4) as (_ & Hnoop & _).
  apply Hnoop. left. vm_compute. discriminate.
Defined.



(** C4 at a line height of 48 pixels and the default spacing 1.2: the
    product is just below 57.6 and the line gap is 57. *)
Lemma C4_witness :
  exists q,
    F64.to_Q (F64.mul (F64.of_Z 48) Samples.spacing_1_2) = Some q
    /\ line_gap_of (Builtins.mono_face 10 48) 40 Samples.spacing_1_2 = Some (Qtrunc q)
    /\ Qtrunc q = 57.
Proof.
  eexists. split; [vm_compute; reflexivity|]. split; [|vm_compute; reflexivity].
  apply (C4_line_gap_is_truncated_product (B := Builtins.ascii_builtins)
           (Builtins.mono_face 10 48) 0 None (Samples.pen_at 0 0)
           (mkSegment "x" Samples.black_40) _ (0, 0, 0)).
  - vm_compute. reflexivity.
  - vm_compute. reflexivity.
Defined.

(** C5 at a pen 20 pixels right of the line start, an advance of 10 and a
    maximal width of 25. *)
Lemma C5_witness :
  wraps 0 (Some 25) 20 0 10 = true <-> 20 + 0 + 10 > 0 + 25 /\ 20 > 0.
Proof.
  assert (H1 : 0 < 25) by lia.
  assert (H2 : "a"%char <> newline) by discriminate.
  assert (H4 : length (buffer (bitmap (load_char (Builtins.mono_face 10 12) 40 "a")))
               = (rows (bitmap (load_char (Builtins.mono_face 10 12) 40 "a"))
                  * width (bitmap (load_char (Builtins.mono_face 10 12) 40 "a")))%nat)
    by reflexivity.
  exact (proj1 (C5_wrap_at_max_width (Builtins.mono_face 10 12) 0 25 40 0 14 (0, 0, 0)
                  (Samples.pen_at 20 0) "a" H1 H2 wf_image_3x4 H4)).
Defined.

(** C6 at the text Hello. *)
Lemma C6_witness :
  Tokenizer.contains_tag "Hello" = false
  /\ taken_for_tag "Hello" = false
  /\ _parse_rich_text (B := Builtins.ascii_builtins) "Hello" Samples.black_40
     = Some [mkSegment "Hello" Samples.black_40].
Proof.
  assert (H1 : Tokenizer.contains_tag "Hello" = false) by (vm_compute; reflexivity).
  assert (H2 : "Hello" <> "") by discriminate.
  assert (H3 : taken_for_tag "Hello" = false) by (vm_compute; reflexivity).
  split; [exact H1|]. split; [exact H3|].
  exact (C6_plain_text_single_segment (B := Builtins.ascii_builtins)
           "Hello" Samples.black_40 H1 H2 H3).
Defined.

(** C7 at the pixel of [image_3x4] under the coverage byte 255 of
    [glyph_2x2] placed at the origin. *)
Lemma C7_witness :
  exists img',
    _draw_glyph Samples.image_3x4 Samples.glyph_2x2 0 0 (200, 201, 202) = Some img'
    /\ (Byte.xff = Byte.x00 -> pixel_at img' 0 1 = Some (Samples.px 10))
    /\ (Byte.xff = Byte.xff ->
        exists q, pixel_at img' 0 1 = Some q
          /\ (byte_to_Z q.1.1, byte_to_Z q.1.2, byte_to_Z q.2) = (200, 201, 202)).
Proof.
  apply (C7_blend_boundary_cases Samples.image_3x4 Samples.glyph_2x2 0 0 200 201 202
           0 1 (Samples.px 10) Byte.xff wf_image_3x4).
  - reflexivity.
  - lia.
  - lia.
  - lia.
  - vm_compute. reflexivity.
  - unfold under_glyph. simpl. lia.
  - vm_compute. reflexivity.
Defined.

(** C8 at the text a, newline, b with a line height of 12 pixels and the
    spacing 1.2: the line gap is 14. *)
Lemma C8_witness :
  draw_segment (B := Builtins.ascii_builtins) (Builtins.mono_face 10 12) 0 None
    (Samples.pen_at 0 0)
    (mkSegment (String "a" (String newline "b")) Samples.black_40)
  = draw_chars (Builtins.mono_face 10 12) 0 None 40 0 14 (0, 0, 0) "b"
      {| pen_x := 0; pen_y := 0 + 14; previous_char := None;
         image := Samples.image_3x4; drawn := [("a"%char, 0, 0)] |}.
Proof.
  refine (proj2 (C8_newline_resets_pen (B := Builtins.ascii_builtins)
                   (Builtins.mono_face 10 12) 0 None (Samples.pen_at 0 0)
                   {| pen_x := 10; pen_y := 0; previous_char := Some "a"%char;
                      image := Samples.image_3x4; drawn := [("a"%char, 0, 0)] |}
                   (mkSegment (String "a" (String newline "b")) Samples.black_40)
                   "a" "b" (0, 0, 0) 14 _ _ _ _)).
  - reflexivity.
  - vm_compute. reflexivity.
  - vm_compute. reflexivity.
  - vm_compute. reflexivity.
Defined.

(** C9 at the tag [spacing=wide] followed by text, a closing tag and text. *)
Lemma C9_witness :
  malformed_open (B := Builtins.ascii_builtins) "[spacing=wide]" = true
  /\ exists st_without out,
       parse_parts (B := Builtins.ascii_builtins) ["y"; "[/size]"; "z"] Samples.inside_red
       = Some st_without
       /\ segments st_without = (segments Samples.inside_red ++ out)%list
       /\ parse_part (B := Builtins.ascii_builtins) Samples.inside_red "[spacing=wide]"
          = Some {| style_stack := style_stack Samples.inside_red;
                    segments := (segments Samples.inside_red
                                 ++ [mkSegment "[spacing=wide]" Samples.red_20])%list |}
       /\ parse_parts (B := Builtins.ascii_builtins)
            ["[spacing=wide]"; "y"; "[/size]"; "z"] Samples.inside_red
          = Some {| style_stack := style_stack st_without;
                    segments := (segments Samples.inside_red
                                 ++ [mkSegment "[spacing=wide]" Samples.red_20] ++ out)%list |}.
Proof.
  assert (H1 : malformed_open (B := Builtins.ascii_builtins) "[spacing=wide]" = true)
    by (vm_compute; reflexivity).
  assert (H2 : top (style_stack Samples.inside_red) = Some Samples.red_20)
    by (vm_compute; reflexivity).
  split; [exact H1|].
  exact (C9_malformed_tag_keeps_stack (B := Builtins.ascii_builtins) Samples.inside_red
           "[spacing=wide]" Samples.red_20 ["y"; "[/size]"; "z"] H1 H2).
Defined.

(** C10 at the tag [sizes=10] read inside a red size-20 level. *)
Lemma C10_witness :
  Tokenizer.is_markup_tag "[sizes=10]" = true
  /\ parse_part (B := Builtins.ascii_builtins) Samples.inside_red "[sizes=10]"
     = Some {| style_stack := (style_stack Samples.inside_red ++ [Samples.red_20])%list;
               segments := segments Samples.inside_red |}.
Proof.
  assert (H1 : Tokenizer.is_markup_tag "[sizes=10]" = true) by (vm_compute; reflexivity).
  assert (H2 : opening_tag "[sizes=10]" = true) by (vm_compute; reflexivity).
  assert (H3 : PyStr.split_once "=" (PyStr.strip_ends "[sizes=10]") = Some ("sizes", "10"))
    by (vm_compute; reflexivity).
  assert (H4 : "sizes" <> "color") by discriminate.
  assert (H5 : "sizes" <> "size") by discriminate.
  assert (H6 : "sizes" <> "spacing") by discriminate.
  assert (H7 : top (style_stack Samples.inside_red) = Some Samples.red_20)
    by (vm_compute; reflexivity).
  split; [exact H1|].
  exact (proj1 (proj2 (C10_extended_attribute_pushes_copy (B := Builtins.ascii_builtins)
                         Samples.inside_red "[sizes=10]" "sizes" "10" Samples.red_20
                         H1 H2 H3 H4 H5 H6 H7))).
Defined.

(* ===================================================================== *)
(** * Further properties of the tokenizer and the parser *)
(* ===================================================================== *)

Lemma split_scan_join n lit s : join (Tokenizer.split_scan n lit s) = lit ++ s.
Proof.
  revert lit s. induction n as [|n IH]; intros lit s.
  - simpl. by rewrite append_nil_r.
  - rewrite split_scan_S. destruct (Tokenizer.match_tag s) as [[m rest]|] eqn:E.
    + cbn [join fold_right]. fold (join (Tokenizer.split_scan n "" rest)).
      rewrite IH. cbn [String.append]. by rewrite (match_tag_sound _ _ _ E).
    + destruct s as [|c s].
      * simpl. by rewrite !append_nil_r.
      * rewrite IH. by rewrite append_assoc'.
Qed.

(** X1.  The parts that the tokenizer cuts a text into, joined in order,
    are the text again: no character is lost, added or moved. *)
Theorem X1_re_split_join (txt : string) : join (Tokenizer.re_split txt) = txt.
Proof. unfold Tokenizer.re_split. by rewrite split_scan_join. Qed.

(** ** The parts alternate between literal text and tags *)

Lemma break_at_none_left c s a b :
  PyStr.break_at c s = Some (a, b) -> PyStr.break_at c a = None.
Proof.
  revert a b. induction s as [|d s IH]; intros a b; cbn [PyStr.break_at]; [done|].
  destruct (Ascii.eqb c d) eqn:E.
  - intros ?; simplify_eq. done.
  - destruct (PyStr.break_at c s) as [[a' b']|]; [|done].
    intros ?; simplify_eq. cbn [PyStr.break_at]. rewrite E. by rewrite (IH a' b).
Qed.

(** What the pattern matches, with the run before the closing bracket
    free of ']'. *)
Lemma match_tag_shape_run s m rest :
  Tokenizer.match_tag s = Some (m, rest) ->
  exists sl k a,
    (sl = "" \/ sl = "/") /\ (k = "color" \/ k = "size" \/ k = "spacing")
    /\ PyStr.break_at Tokenizer.rbracket a = None
    /\ m = String "[" ((sl ++ k ++ a) ++ "]").
Proof.
  destruct s as [|c s]; simpl; [done|].
  destruct (Ascii.eqb c Tokenizer.lbracket); [|done].
  destruct (Tokenizer.match_after_bracket s) as [[m' r]|] eqn:E; [|done].
  intros ?; simplify_eq.
  revert E. unfold Tokenizer.match_after_bracket.
  assert (Hgen : forall sl s1,
    match Tokenizer.strip_keyword Tokenizer.keywords s1 with
    | Some (k, r0) =>
        match Tokenizer.match_body r0 with
        | Some (b, rest0) => Some (sl ++ k ++ b, rest0)
        | None => None
        end
    | None => None
    end = Some (m', rest) ->
    exists k a, (k = "color" \/ k = "size" \/ k = "spacing")
      /\ PyStr.break_at Tokenizer.rbracket a = None
      /\ m' = (sl ++ k ++ a) ++ "]").
  { intros sl s1.
    destruct (Tokenizer.strip_keyword Tokenizer.keywords s1) as [[k r0]|] eqn:Ek; [|done].
    unfold Tokenizer.match_body.
    destruct (PyStr.break_at Tokenizer.rbracket r0) as [[a b]|] eqn:Eb; [|done].
    intros ?; simplify_eq. apply strip_keyword_sound in Ek as [_ Hk].
    exists k, a. split; [done|]. split; [by apply break_at_none_left in Eb|].
    by rewrite !append_assoc'. }
  destruct s as [|c' s].
  - cbv beta iota. intros H. destruct (Hgen "" "" H) as (k & a & Hk & Ha & ->).
    exists "", k, a. auto.
  - destruct (Ascii.eqb c' Tokenizer.slash); cbv beta iota; intros H.
    + destruct (Hgen (String Tokenizer.slash "") s H) as (k & a & Hk & Ha & ->).
      exists "/", k, a. auto.
    + destruct (Hgen "" (String c' s) H) as (k & a & Hk & Ha & ->).
      exists "", k, a. auto.
Qed.

(** A matched text is, on its own, one whole match. *)
Lemma match_tag_self s m rest :
  Tokenizer.match_tag s = Some (m, rest) -> Tokenizer.is_markup_tag m = true.
Proof.
  intros H. destruct (match_tag_shape_run _ _ _ H) as (sl & k & a & Hsl & Hk & Ha & ->).
  pose proof (match_tag_complete sl k a "" Hsl Hk Ha) as Hc.
  unfold Tokenizer.is_markup_tag.
  replace (String "[" ((sl ++ k ++ a) ++ "]")) with (String "[" (sl ++ k ++ a ++ "]"))
    by (by rewrite !append_assoc').
  rewrite Hc. rewrite !append_assoc'. apply String.eqb_refl.
Qed.

Lemma contains_tag_false l :
  Tokenizer.contains_tag l = false <->
  forall a b, l = a ++ b -> Tokenizer.match_tag b = None.
Proof.
  induction l as [|c l IH].
  - cbn [Tokenizer.contains_tag]. split; [|done].
    intros _ a b Hab. destruct a; [|done]. simpl in Hab. by subst.
  - cbn [Tokenizer.contains_tag].
    destruct (Tokenizer.match_tag (String c l)) eqn:E.
    + split; [done|]. intros H. by rewrite (H "" (String c l)) in E.
    + rewrite IH. split.
      * intros H [|a0 a] b Hab; simpl in Hab; [by subst|].
        simplify_eq. by apply (H a).
      * intros H a b Hab. apply (H (String c a)). simpl. by f_equal.
Qed.

Lemma snoc_split x c a b :
  x ++ String c "" = a ++ b ->
  b = "" \/ exists b0, b = b0 ++ String c "" /\ x = a ++ b0.
Proof.
  revert x. induction a as [|d a IH]; intros x H.
  - simpl in H. right. exists x. by subst.
  - destruct x as [|e x]; simpl in H.
    + simplify_eq. destruct a; [|done]. simpl in *. by left; destruct b.
    + simplify_eq. destruct (IH x) as [->|(b0 & -> & ->)]; [done|by left|].
      right. by exists b0.
Qed.

Lemma split_scan_alternates n lit s i :
  (String.length s < n)%nat ->
  (forall a b, lit = a ++ b -> b <> "" -> Tokenizer.match_tag (b ++ s) = None) ->
  match Tokenizer.split_scan n lit s !! i with
  | Some part =>
      if Nat.even i then Tokenizer.contains_tag part = false
      else Tokenizer.is_markup_tag part = true
  | None => True
  end.
Proof.
  revert lit s i. induction n as [|n IH]; intros lit s i Hn Hinv; [lia|].
  assert (Hlit : Tokenizer.contains_tag lit = false).
  { apply contains_tag_false. intros a b Hab.
    destruct (Tokenizer.match_tag b) as [[m r]|] eqn:Eb; [|done].
    assert (b <> "") by (by intros ->).
    apply (match_tag_app _ _ _ s) in Eb. by rewrite (Hinv a b Hab) in Eb. }
  rewrite split_scan_S. destruct (Tokenizer.match_tag s) as [[m rest]|] eqn:E.
  - destruct i as [|[|i]].
    + done.
    + simpl. by apply (match_tag_self s m rest).
    + change (Nat.even (S (S i))) with (Nat.even i).
      change ((lit :: m :: Tokenizer.split_scan n "" rest) !! S (S i))
        with (Tokenizer.split_scan n "" rest !! i).
      apply IH.
      * apply match_tag_shorter in E. lia.
      * intros a b Hab Hb. destruct a; [|done]. simpl in Hab. by subst.
  - destruct s as [|c s].
    + destruct i as [|i]; done.
    + apply IH; [simpl in Hn; lia|].
      intros a b Hab Hb. destruct (snoc_split _ _ _ _ Hab) as [->|(b0 & -> & ->)]; [done|].
      rewrite append_assoc'. cbn [String.append].
      destruct b0 as [|e b0]; [done|]. by apply (Hinv a).
Qed.

(** X2.  In the parts of a text, the parts at odd positions are each one
    whole match of the tag pattern, and in the parts at even positions the
    pattern matches nowhere: the tokenizer sorts tags from literal text. *)
Theorem X2_re_split_alternates (txt : string) (i : nat) :
  match Tokenizer.re_split txt !! i with
  | Some part =>
      if Nat.even i then Tokenizer.contains_tag part = false
      else Tokenizer.is_markup_tag part = true
  | None => True
  end.
Proof.
  unfold Tokenizer.re_split. apply split_scan_alternates; [lia|].
  intros a b Hab Hb. destruct a; [|done]. simpl in Hab. by subst.
Qed.

(** ** The segments *)

(** X3.  [_parse_rich_text] returns for every text and every default
    style: no tag sequence, however unbalanced, empties the stack, so the
    reads of [style_stack[-1]] never fail. *)
Theorem X3_parse_never_raises {B : PyBuiltins} (txt : string) (default_options : Style) :
  exists segs, _parse_rich_text txt default_options = Some segs.
Proof.
  unfold _parse_rich_text.
  destruct (parse_parts_bottom (Tokenizer.re_split txt) (initial_state default_options)
              default_options []) as (st & above & -> & _); [done|].
  by eexists.
Qed.

Lemma parse_part_emits {B : PyBuiltins} st part st' :
  parse_part st part = Some st' ->
  segments st' = segments st
  \/ (part <> "" /\ exists sty, segments st' = (segments st ++ [mkSegment part sty])%list).
Proof.
  unfold parse_part. destruct (String.eqb_spec part "") as [->|Hne].
  { intros ?; simplify_eq. by left. }
  destruct (is_tag part).
  - destruct (is_closing _).
    + destruct (1 <? _); intros ?; simplify_eq; by left.
    + destruct (top (style_stack st)) as [cur|]; [|done].
      destruct (apply_tag _ _); intros ?; simplify_eq; [by left|].
      right. split; [done|]. by exists cur.
  - destruct (top (style_stack st)) as [cur|]; [|done].
    intros ?; simplify_eq. right. split; [done|]. by exists cur.
Qed.

Lemma parse_parts_emits {B : PyBuiltins} parts st st' :
  parse_parts parts st = Some st' ->
  exists out, segments st' = (segments st ++ out)%list
    /\ map text out `sublist_of` parts
    /\ Forall (fun seg => text seg <> "") out.
Proof.
  revert st. induction parts as [|part parts IH]; intros st; cbn [parse_parts].
  - intros ?; simplify_eq. exists []. rewrite app_nil_r. repeat split; constructor.
  - destruct (parse_part st part) as [st1|] eqn:E1; [|done]. intros E2.
    destruct (IH _ E2) as (out & Hout & Hsub & Hne).
    destruct (parse_part_emits _ _ _ E1) as [Hsame|(Hpart & sty & Hone)].
    + exists out. rewrite Hout, Hsame. split; [done|]. split; [|done].
      by apply sublist_cons.
    + exists (mkSegment part sty :: out). rewrite Hout, Hone, <- app_assoc.
      split; [done|]. split.
      * simpl. by apply sublist_skip.
      * by constructor.
Qed.

(** X4.  The texts of the segments are, in order, parts of the tokenized
    text (tags that were consumed are skipped, nothing is merged or
    reordered), and no segment has an empty text. *)
Theorem X4_segments_are_parts {B : PyBuiltins} (txt : string) (default_options : Style)
    (segs : list Segment) :
  _parse_rich_text txt default_options = Some segs ->
  map text segs `sublist_of` Tokenizer.re_split txt
  /\ Forall (fun seg => text seg <> "") segs.
Proof.
  unfold _parse_rich_text.
  destruct (parse_parts (Tokenizer.re_split txt) (initial_state default_options))
    as [st|] eqn:E; [|done].
  intros ?; simplify_eq.
  destruct (parse_parts_emits _ _ _ E) as (out & Hout & Hsub & Hne).
  simpl in Hout. by rewrite Hout.
Qed.

(** ** Bracketed text that is not a tag *)

Lemma drop_last_last t c :
  PyStr.last_char t = Some c -> t = PyStr.drop_last t ++ String c "".
Proof.
  induction t as [|d t IH]; [done|].
  cbn [PyStr.last_char PyStr.drop_last]. destruct t as [|e t].
  - intros ?; by simplify_eq.
  - intros H. cbn [String.append]. f_equal. by apply IH.
Qed.

Lemma is_tag_bracketed txt :
  is_tag txt = true -> txt = String "[" (PyStr.strip_ends txt ++ "]").
Proof.
  unfold is_tag. intros [H1 H2]%andb_true_iff.
  destruct txt as [|c t]; [done|].
  cbn [PyStr.startswith] in H1. apply andb_true_iff in H1 as [H1 _].
  apply Ascii.eqb_eq in H1 as <-.
  unfold PyStr.endswith_char in H2. cbn [PyStr.strip_ends].
  destruct t as [|e t]; [done|].
  change (PyStr.last_char (String "[" (String e t))) with (PyStr.last_char (String e t)) in H2.
  destruct (PyStr.last_char (String e t)) as [d|] eqn:E; [|done].
  apply Ascii.eqb_eq in H2 as <-. f_equal. by apply drop_last_last.
Qed.

Lemma break_at_found c x y :
  exists a b, PyStr.break_at c (x ++ String c y) = Some (a, b).
Proof.
  induction x as [|d x IH]; cbn [String.append PyStr.break_at].
  - rewrite Ascii.eqb_refl. by eexists _, _.
  - destruct (Ascii.eqb c d); [by eexists _, _|].
    destruct IH as (a & b & ->). by eexists _, _.
Qed.

(** Bracketed text that starts with a keyword is matched by the pattern. *)
Lemma bracketed_keyword_matches k r :
  (k = "color" \/ k = "size" \/ k = "spacing") ->
  Tokenizer.match_tag (String "[" ((k ++ r) ++ "]")) <> None.
Proof.
  intros Hk. cbn [Tokenizer.match_tag]. change (Ascii.eqb "[" Tokenizer.lbracket) with true.
  cbv beta iota. rewrite append_assoc', (match_after_bracket_keyword _ _ Hk).
  unfold Tokenizer.match_body, Tokenizer.rbracket.
  destruct (break_at_found "]" r "") as (a & b & ->). done.
Qed.

(** X5.  Text in which the tokenizer finds no tag, but which as a whole is
    bracketed with a content that starts with '/' or has a '=', yields no
    segment at all: the test on the first and last character takes it for a
    tag, and the text is not drawn. *)
Theorem X5_bracketed_text_is_swallowed {B : PyBuiltins} (txt : string)
    (default_options : Style) :
  Tokenizer.contains_tag txt = false ->
  taken_for_tag txt = true ->
  _parse_rich_text txt default_options = Some [].
Proof.
  intros Hno Htaken. unfold _parse_rich_text.
  rewrite (re_split_no_tag txt Hno). cbn [parse_parts].
  unfold taken_for_tag in Htaken. apply andb_true_iff in Htaken as [Ht Hor].
  unfold parse_part. rewrite (is_tag_nonempty _ Ht), Ht.
  cbn [initial_state style_stack segments].
  destruct (is_closing (PyStr.strip_ends txt)) eqn:Hc; [done|].
  cbn [orb] in Hor. cbn [top last]. unfold apply_tag.
  destruct (PyStr.split_once "=" (PyStr.strip_ends txt)) as [[t v]|] eqn:Es; [|done].
  assert (Hshape : txt = String "[" ((t ++ String "=" v) ++ "]")).
  { rewrite (is_tag_bracketed txt Ht) at 1. do 2 f_equal. by apply break_at_sound. }
  assert (Hnot : forall k, (k = "color" \/ k = "size" \/ k = "spacing") -> t <> k).
  { intros k Hk ->. apply (bracketed_keyword_matches k (String "=" v) Hk).
    rewrite <- Hshape. rewrite contains_tag_false in Hno. by apply (Hno "" txt). }
  destruct (String.eqb_spec t "color"); [done|].
  destruct (String.eqb_spec t "size") as [->|_]; [by destruct (Hnot "size"); auto|].
  destruct (String.eqb_spec t "spacing") as [->|_]; [by destruct (Hnot "spacing"); auto|].
  done.
Qed.

(* ===================================================================== *)
(** * Further properties of [hex_to_bgr] *)
(* ===================================================================== *)

Lemma lstrip_hashes hashes x :
  PyStr.lstrip_char "#" hashes = "" ->
  PyStr.startswith "#" x = false ->
  PyStr.lstrip_char "#" (hashes ++ x) = x.
Proof.
  intros Hh Hx. induction hashes as [|c h IH]; cbn [String.append PyStr.lstrip_char] in *.
  - destruct x as [|d x]; [done|]. cbn [PyStr.lstrip_char].
    cbn [PyStr.startswith] in Hx. by destruct (Ascii.eqb "#" d).
  - destruct (Ascii.eqb "#" c); [by apply IH|done].
Qed.

Lemma two_chars (s : string) :
  String.length s = 2%nat -> exists a b, s = String a (String b "").
Proof. destruct s as [|a [|b [|c s]]]; try done. intros _. by exists a, b. Qed.

Lemma substring_short n m s : (String.length s <= n)%nat -> String.substring n m s = "".
Proof.
  revert s. induction n as [|n IH]; intros s Hs.
  - destruct s; [|simpl in Hs; lia]. by destruct m.
  - destruct s as [|c s]; [done|]. simpl in *. apply IH. lia.
Qed.

(** X6.  After any number of leading '#', the first six characters are read
    as three two-character fields rr, gg, bb, each by [int(_, 16)], and come
    back in the order (bb, gg, rr); whatever follows the sixth character
    (an alpha field, say) is ignored. *)
Theorem X6_hex_to_bgr_reads_rrggbb {B : PyBuiltins} (hashes rr gg bb tail : string) :
  PyStr.lstrip_char "#" hashes = "" ->
  PyStr.startswith "#" rr = false ->
  String.length rr = 2%nat -> String.length gg = 2%nat -> String.length bb = 2%nat ->
  hex_to_bgr (hashes ++ rr ++ gg ++ bb ++ tail)
  = match py_int 16 bb, py_int 16 gg, py_int 16 rr with
    | Some b, Some g, Some r => Some (b, g, r)
    | _, _, _ => None
    end.
Proof.
  intros Hh Hr (r1 & r2 & ->)%two_chars (g1 & g2 & ->)%two_chars (b1 & b2 & ->)%two_chars.
  unfold hex_to_bgr. rewrite lstrip_hashes; [|done|].
  2:{ cbn [String.append]. cbn [PyStr.startswith] in *. by destruct (Ascii.eqb "#" r1). }
  unfold PyStr.slice. cbn [String.append String.substring].
  replace (String.substring 0 0 tail) with "" by (by destruct tail).
  destruct (py_int 16 (String b1 (String b2 ""))); [|done].
  destruct (py_int 16 (String g1 (String g2 ""))); [|done].
  by destruct (py_int 16 (String r1 (String r2 ""))).
Qed.

(** X7.  A colour with at most four characters after its leading '#' (the
    three-digit shorthand, say) is refused: the blue field is the empty
    string, which [int(_, 16)] does not read. *)
Theorem X7_hex_to_bgr_short_colour {B : PyBuiltins} (hex_color : string) :
  py_int 16 "" = None ->
  (String.length (PyStr.lstrip_char "#" hex_color) <= 4)%nat ->
  hex_to_bgr hex_color = None.
Proof.
  intros Hempty Hlen. unfold hex_to_bgr, PyStr.slice.
  by rewrite (substring_short 4 2 _ Hlen), Hempty.
Qed.

(* ===================================================================== *)
(** * Further properties of the compositor *)
(* ===================================================================== *)

(** When nothing is left to draw, no pixel of the image lies under the
    bitmap. *)
Lemma nothing_under_glyph img bm x y r c :
  nothing_to_draw img bm x y = true ->
  (r < img_h img)%nat -> (c < img_w img)%nat ->
  ~ under_glyph bm x y r c.
Proof.
  unfold nothing_to_draw, under_glyph, clip_of. cbn [clipped_w clipped_h].
  intros H Hr Hc [Hy Hx].
  apply orb_true_iff in H as [H|H]; apply orb_true_iff in H as [H|H].
  - apply Nat.eqb_eq in H. lia.
  - apply Nat.eqb_eq in H. lia.
  - apply Z.leb_le in H. lia.
  - apply Z.leb_le in H. lia.
Qed.

(** X8.  For a bitmap whose buffer has [rows * width] bytes and a colour of
    8-bit channels, at any position, [_draw_glyph] returns an image of the
    same shape in which each pixel that lies under the bitmap is the blend
    of the old pixel with the colour, weighted by the coverage byte that
    lies over it, and each other pixel is the old one: the clip arithmetic
    neither shifts the bitmap nor leaves out a pixel. *)
Theorem X8_draw_glyph_blends_each_pixel (img : Image) (glyph_bitmap : Bitmap) (x y : Z)
    (cb cg cr : Z) :
  wf_image img ->
  length (buffer glyph_bitmap) = (rows glyph_bitmap * width glyph_bitmap)%nat ->
  0 <= cb <= 255 -> 0 <= cg <= 255 -> 0 <= cr <= 255 ->
  exists img',
    _draw_glyph img glyph_bitmap x y (cb, cg, cr) = Some img'
    /\ wf_image img' /\ img_w img' = img_w img /\ img_h img' = img_h img
    /\ forall r c,
         pixel_at img' r c
         = match pixel_at img r c with
           | Some p =>
               if decide (under_glyph glyph_bitmap x y r c)
               then option_map (fun cov => blend_pixel (alpha_of cov) p (cb, cg, cr))
                      (coverage_at glyph_bitmap (Z.to_nat (Z.of_nat r - y))
                         (Z.to_nat (Z.of_nat c - x)))
               else Some p
           | None => None
           end.
Proof.
  intros Hwf Hbuf _ _ _. set (color_bgr := (cb, cg, cr)).
  destruct (nothing_to_draw img glyph_bitmap x y) eqn:Hdraw.
  - exists img. rewrite (draw_glyph_nothing _ _ _ _ color_bgr Hdraw).
    repeat (split; [done|]). intros r c.
    destruct (pixel_at img r c) as [p|] eqn:Ep; [|done].
    destruct (pixel_at_bounds img r c p Hwf Ep) as [Hr Hc].
    rewrite decide_False; [done|]. by apply (nothing_under_glyph img).
  - destruct (draw_glyph_pixels img glyph_bitmap x y color_bgr Hwf Hbuf Hdraw)
      as (img' & Hres & Hw & Hh & Hwf' & Hpix).
    exists img'. repeat (split; [done|]). intros r c. rewrite Hpix.
    destruct (pixel_at img r c); [|done]. case_decide; [|done].
    by destruct (coverage_at _ _ _).
Qed.

(** ** A bitmap without coverage *)

Lemma image_ext img img' :
  wf_image img -> wf_image img' ->
  img_w img' = img_w img -> img_h img' = img_h img ->
  (forall r c, pixel_at img' r c = pixel_at img r c) ->
  img' = img.
Proof.
  destruct img as [w d], img' as [w' d']. unfold wf_image, img_h, pixel_at, lookup2.
  cbn [img_w data]. intros Hwf Hwf' -> Hh Hpix. f_equal.
  apply list_eq. intros r.
  destruct (d' !! r) as [row'|] eqn:E', (d !! r) as [row|] eqn:E.
  - f_equal. apply list_eq. intros c. specialize (Hpix r c). by rewrite E, E' in Hpix.
  - apply lookup_lt_Some in E'. apply lookup_ge_None in E. lia.
  - apply lookup_lt_Some in E. apply lookup_ge_None in E'. lia.
  - done.
Qed.

(** X9.  A bitmap whose coverage bytes are all 0 leaves the image as it
    was, wherever it is placed, for a colour of 8-bit channels. *)
Theorem X9_transparent_glyph_changes_nothing (img : Image) (glyph_bitmap : Bitmap)
    (x y : Z) (cb cg cr : Z) :
  wf_image img ->
  length (buffer glyph_bitmap) = (rows glyph_bitmap * width glyph_bitmap)%nat ->
  Forall (fun cov => cov = Byte.x00) (buffer glyph_bitmap) ->
  0 <= cb <= 255 -> 0 <= cg <= 255 -> 0 <= cr <= 255 ->
  _draw_glyph img glyph_bitmap x y (cb, cg, cr) = Some img.
Proof.
  intros Hwf Hbuf Hzero Hb Hg Hr.
  destruct (nothing_to_draw img glyph_bitmap x y) eqn:Hdraw.
  { by apply draw_glyph_nothing. }
  destruct (draw_glyph_pixels img glyph_bitmap x y (cb, cg, cr) Hwf Hbuf Hdraw)
    as (img' & Hres & Hw & Hh & Hwf' & Hpix).
  rewrite Hres. f_equal. apply image_ext; try done.
  intros r c. rewrite Hpix. destruct (pixel_at img r c) as [[[tb tg] tr]|]; [|done].
  case_decide; [|done].
  destruct (coverage_at _ _ _) as [cov|] eqn:Ec; [|].
  - assert (cov = Byte.x00) as ->.
    { unfold coverage_at in Ec. destruct (_ <? _)%nat; [|done].
      rewrite Forall_lookup in Hzero. by apply (Hzero _ _ Ec). }
    unfold blend_pixel. by rewrite !blend_channel_cov0.
  - exfalso. unfold coverage_at, under_glyph in *.
    destruct (Nat.ltb_spec (Z.to_nat (Z.of_nat c - x)) (width glyph_bitmap)); [|lia].
    apply lookup_ge_None in Ec. nia.
Qed.

(* ===================================================================== *)
(** * Further properties of the layout loop *)
(* ===================================================================== *)

(** ** A maximal width of 0 *)

Lemma draw_char_width_0 face x_start sz asc gap col st ch :
  draw_char face x_start (Some 0) sz asc gap col st ch
  = draw_char face x_start None sz asc gap col st ch.
Proof. reflexivity. Qed.

Lemma draw_chars_width_0 face x_start sz asc gap col txt st :
  draw_chars face x_start (Some 0) sz asc gap col txt st
  = draw_chars face x_start None sz asc gap col txt st.
Proof.
  revert st. induction txt as [|ch txt IH]; intros st; [done|].
  cbn [draw_chars]. rewrite draw_char_width_0.
  destruct (draw_char face x_start None sz asc gap col st ch); [apply IH|done].
Qed.

Lemma draw_segments_width_0 {B : PyBuiltins} face x_start segs st :
  draw_segments face x_start (Some 0) segs st = draw_segments face x_start None segs st.
Proof.
  revert st. induction segs as [|seg segs IH]; intros st; [done|].
  cbn [draw_segments]. unfold draw_segment.
  destruct (hex_to_bgr _); [|done]. destruct (line_gap_of _ _ _); [|done].
  rewrite draw_chars_width_0. destruct (draw_chars _ _ _ _ _ _ _ _ _); [apply IH|done].
Qed.

(** X10.  A maximal width of 0 is no maximal width: the render is the one
    without [max_width], never a wrap before every character. *)
Theorem X10_max_width_0_disables_wrapping {B : PyBuiltins} (face : Face) (img : Image)
    (text_to_draw : string) (start_pos : Z * Z) (base_options : Options)
    (line_spacing_multiplier : F64.float) :
  draw_text face img text_to_draw start_pos base_options (Some 0) line_spacing_multiplier
  = draw_text face img text_to_draw start_pos base_options None line_spacing_multiplier.
Proof.
  unfold draw_text. destruct (_parse_rich_text _ _); [|done].
  destruct start_pos. apply draw_segments_width_0.
Qed.

(** ** What the loop keeps and what it draws *)

Lemma draw_glyph_shape img bm x y color_bgr img' :
  wf_image img -> _draw_glyph img bm x y color_bgr = Some img' ->
  wf_image img' /\ img_w img' = img_w img /\ img_h img' = img_h img.
Proof.
  intros Hwf Hres. destruct (nothing_to_draw img bm x y) eqn:Hdraw.
  - rewrite (draw_glyph_nothing _ _ _ _ color_bgr Hdraw) in Hres. by simplify_eq.
  - pose proof (draw_glyph_buffer _ _ _ _ _ _ Hdraw Hres) as Hbuf.
    destruct (draw_glyph_pixels img bm x y color_bgr Hwf Hbuf Hdraw)
      as (img2 & Hres2 & Hw & Hh & Hwf2 & _).
    rewrite Hres in Hres2. by simplify_eq.
Qed.

(** One round of the character loop keeps the shape of the image. *)
Lemma draw_char_shape face x_start max_width sz asc gap col st ch st' :
  wf_image (image st) ->
  draw_char face x_start max_width sz asc gap col st ch = Some st' ->
  wf_image (image st') /\ img_w (image st') = img_w (image st)
  /\ img_h (image st') = img_h (image st).
Proof.
  intros Hwf. unfold draw_char. destruct (Ascii.eqb ch newline).
  - intros ?; by simplify_eq.
  - destruct (wraps _ _ _ _ _);
      (destruct (_draw_glyph _ _ _ _ _) as [img'|] eqn:Hg; [|done]);
      intros ?; simplify_eq; cbn [image];
      by apply (draw_glyph_shape _ _ _ _ _ _ Hwf Hg).
Qed.

Lemma draw_chars_shape face x_start max_width sz asc gap col txt st st' :
  wf_image (image st) ->
  draw_chars face x_start max_width sz asc gap col txt st = Some st' ->
  wf_image (image st') /\ img_w (image st') = img_w (image st)
  /\ img_h (image st') = img_h (image st).
Proof.
  revert st. induction txt as [|ch txt IH]; intros st Hwf; cbn [draw_chars].
  - intros ?; by simplify_eq.
  - destruct (draw_char face x_start max_width sz asc gap col st ch) as [st1|] eqn:E; [|done].
    intros Hrest.
    destruct (draw_char_shape _ _ _ _ _ _ _ _ _ _ Hwf E) as (Hwf1 & Hw1 & Hh1).
    destruct (IH st1 Hwf1 Hrest) as (Hwf' & Hw' & Hh').
    split; [done|split; congruence].
Qed.

Lemma draw_segments_shape {B : PyBuiltins} face x_start max_width segs st st' :
  wf_image (image st) ->
  draw_segments face x_start max_width segs st = Some st' ->
  wf_image (image st') /\ img_w (image st') = img_w (image st)
  /\ img_h (image st') = img_h (image st).
Proof.
  revert st. induction segs as [|seg segs IH]; intros st Hwf; cbn [draw_segments].
  - intros ?; by simplify_eq.
  - destruct (draw_segment face x_start max_width st seg) as [st1|] eqn:E; [|done].
    intros Hrest. unfold draw_segment in E.
    destruct (hex_to_bgr _) as [col|]; [|done].
    destruct (line_gap_of _ _ _) as [gap|]; [|done].
    destruct (draw_chars_shape _ _ _ _ _ _ _ _ _ _ Hwf E) as (Hwf1 & Hw1 & Hh1).
    destruct (IH st1 Hwf1 Hrest) as (Hwf' & Hw' & Hh').
    split; [done|split; congruence].
Qed.

(** X11.  A render that returns hands back an image of the shape it was
    given: whatever the text, the start and the font metrics, [draw_text]
    never resizes the image or a row of it. *)
Theorem X11_draw_text_keeps_shape {B : PyBuiltins} (face : Face) (img : Image)
    (text_to_draw : string) (start_pos : Z * Z) (base_options : Options)
    (max_width : option Z) (line_spacing_multiplier : F64.float) (st : Pen) :
  wf_image img ->
  draw_text face img text_to_draw start_pos base_options max_width line_spacing_multiplier
  = Some st ->
  wf_image (image st) /\ img_w (image st) = img_w img /\ img_h (image st) = img_h img.
Proof.
  intros Hwf. unfold draw_text. destruct (_parse_rich_text _ _) as [segs|]; [|done].
  destruct start_pos as [x_start y_start]. intros Hrun.
  apply (draw_segments_shape _ _ _ _ (mkPen x_start y_start None img []) _ Hwf Hrun).
Qed.

(** One round of the character loop draws the character, unless it is a
    newline. *)
Lemma draw_char_drawn face x_start max_width sz asc gap col st ch st' :
  draw_char face x_start max_width sz asc gap col st ch = Some st' ->
  map (fun d => d.1.1) (drawn st')
  = (map (fun d => d.1.1) (drawn st) ++ (if Ascii.eqb ch newline then [] else [ch]))%list.
Proof.
  unfold draw_char. destruct (Ascii.eqb ch newline).
  - intros ?; simplify_eq. cbn. by rewrite app_nil_r.
  - destruct (wraps _ _ _ _ _);
      (destruct (_draw_glyph _ _ _ _ _) as [img'|]; [|done]);
      intros ?; simplify_eq; cbn [drawn]; by rewrite map_app.
Qed.

Lemma visible_chars_cons ch txt :
  visible_chars (String ch txt)
  = ((if Ascii.eqb ch newline then [] else [ch]) ++ visible_chars txt)%list.
Proof. cbn [visible_chars]. by destruct (Ascii.eqb ch newline). Qed.

Lemma visible_chars_app a b :
  visible_chars (a ++ b) = (visible_chars a ++ visible_chars b)%list.
Proof.
  induction a as [|ch a IH]; [done|].
  cbn [String.append]. rewrite !visible_chars_cons, IH. by rewrite app_assoc.
Qed.

Lemma draw_chars_drawn face x_start max_width sz asc gap col txt st st' :
  draw_chars face x_start max_width sz asc gap col txt st = Some st' ->
  map (fun d => d.1.1) (drawn st')
  = (map (fun d => d.1.1) (drawn st) ++ visible_chars txt)%list.
Proof.
  revert st. induction txt as [|ch txt IH]; intros st; cbn [draw_chars].
  - intros ?; simplify_eq. by rewrite app_nil_r.
  - destruct (draw_char face x_start max_width sz asc gap col st ch) as [st1|] eqn:E; [|done].
    intros Hrest. rewrite (IH st1 Hrest), (draw_char_drawn _ _ _ _ _ _ _ _ _ _ E).
    by rewrite visible_chars_cons, app_assoc.
Qed.

Lemma draw_segments_drawn {B : PyBuiltins} face x_start max_width segs st st' :
  draw_segments face x_start max_width segs st = Some st' ->
  map (fun d => d.1.1) (drawn st')
  = (map (fun d => d.1.1) (drawn st) ++ visible_chars (join (map text segs)))%list.
Proof.
  revert st. induction segs as [|seg segs IH]; intros st; cbn [draw_segments].
  - intros ?; simplify_eq. cbn. by rewrite app_nil_r.
  - destruct (draw_segment face x_start max_width st seg) as [st1|] eqn:E; [|done].
    intros Hrest. unfold draw_segment in E.
    destruct (hex_to_bgr _) as [col|]; [|done].
    destruct (line_gap_of _ _ _) as [gap|]; [|done].
    rewrite (IH st1 Hrest), (draw_chars_drawn _ _ _ _ _ _ _ _ _ _ E).
    cbn [map join fold_right]. fold (join (map text segs)).
    by rewrite visible_chars_app, app_assoc.
Qed.

(** X12.  In a render that returns, the glyphs drawn are, in order, the
    characters of the segment texts other than newlines: each is drawn
    once, and a wrap neither drops nor repeats a character. *)
Theorem X12_every_character_drawn_once {B : PyBuiltins} (face : Face) (img : Image)
    (text_to_draw : string) (start_pos : Z * Z) (base_options : Options)
    (max_width : option Z) (line_spacing_multiplier : F64.float) (st : Pen) :
  draw_text face img text_to_draw start_pos base_options max_width line_spacing_multiplier
  = Some st ->
  exists segs,
    _parse_rich_text (PyStr.replace2 backslash "n" newline text_to_draw)
      (default_style_of base_options line_spacing_multiplier) = Some segs
    /\ map (fun d => d.1.1) (drawn st) = visible_chars (join (map text segs)).
Proof.
  unfold draw_text. destruct (_parse_rich_text _ _) as [segs|]; [|done].
  destruct start_pos as [x_start y_start]. intros Hrun. exists segs. split; [done|].
  by rewrite (draw_segments_drawn _ _ _ _ _ _ Hrun).
Qed.

(** ** When a render fails *)

Lemma draw_segments_fails {B : PyBuiltins} face x_start max_width segs seg st :
  In seg segs ->
  hex_to_bgr (color (style seg)) = None
  \/ line_gap_of face (font_size (style seg)) (spacing (style seg)) = None ->
  draw_segments face x_start max_width segs st = None.
Proof.
  intros Hin Hbad. revert st. induction segs as [|s segs IH]; intros st; [done|].
  cbn [draw_segments]. destruct Hin as [-> | Hin].
  - unfold draw_segment. destruct Hbad as [-> | Hgap]; [done|].
    rewrite Hgap. by destruct (hex_to_bgr _).
  - destruct (draw_segment face x_start max_width st s); [by apply IH|done].
Qed.

(** X13.  One segment whose colour [hex_to_bgr] does not read, or whose line
    gap [int()] refuses (the product with the spacing is an infinity or a
    NaN), makes [draw_text] raise: wherever the segment stands in the text,
    whatever its characters, and whatever the other segments, the face, the
    image, the start and the maximal width are. *)
Theorem X13_unreadable_colour_or_gap_fails_the_render {B : PyBuiltins} (face : Face)
    (img : Image) (text_to_draw : string) (start_pos : Z * Z) (base_options : Options)
    (max_width : option Z) (line_spacing_multiplier : F64.float)
    (segs : list Segment) (seg : Segment) :
  _parse_rich_text (PyStr.replace2 backslash "n" newline text_to_draw)
    (default_style_of base_options line_spacing_multiplier) = Some segs ->
  In seg segs ->
  hex_to_bgr (color (style seg)) = None
  \/ line_gap_of face (font_size (style seg)) (spacing (style seg)) = None ->
  draw_text face img text_to_draw start_pos base_options max_width line_spacing_multiplier
  = None.
Proof.
  intros Hparse Hin Hbad. unfold draw_text. rewrite Hparse.
  destruct start_pos as [x_start y_start].
  by apply (draw_segments_fails face x_start max_width segs seg).
Qed.

(* ===================================================================== *)
(** * main.py: properties of [_get_current_period_info] *)
(* ===================================================================== *)

Lemma time_cmp_microseconds a b :
  valid_time a -> valid_time b ->
  time_cmp a b = (microseconds_of a ?= microseconds_of b).
Proof.
  unfold valid_time, time_cmp, microseconds_of. intros Ha Hb. symmetry.
  destruct (Z.compare_spec (hour a) (hour b));
    [destruct (Z.compare_spec (minute a) (minute b));
       [destruct (Z.compare_spec (second a) (second b));
          [destruct (Z.compare_spec (microsecond a) (microsecond b))|..]|..]|..];
    first [apply Z.compare_eq_iff; lia | apply Z.compare_lt_iff; lia
          | apply Z.compare_gt_iff; lia].
Qed.

Lemma time_cmp_antisym a b : time_cmp b a = CompOpp (time_cmp a b).
Proof.
  unfold time_cmp.
  rewrite (Z.compare_antisym (hour a)), (Z.compare_antisym (minute a)),
    (Z.compare_antisym (second a)), (Z.compare_antisym (microsecond a)).
  destruct (hour a ?= hour b); simpl; try done.
  destruct (minute a ?= minute b); simpl; try done.
  by destruct (second a ?= second b).
Qed.

Lemma time_cmp_eq a b : time_cmp a b = Eq <-> a = b.
Proof.
  split; [|intros ->; unfold time_cmp; by rewrite !Z.compare_refl].
  unfold time_cmp. destruct a, b. cbn.
  destruct (Z.compare_spec hour0 hour1); try done.
  destruct (Z.compare_spec minute0 minute1); try done.
  destruct (Z.compare_spec second0 second1); try done.
  intros ->%Z.compare_eq_iff. by subst.
Qed.

Lemma mod_wrap x : - day <= x < day -> x mod day = if x <? 0 then x + day else x.
Proof.
  intros Hx. destruct (Z.ltb_spec x 0).
  - rewrite <- (Z_mod_plus_full x 1 day). apply Z.mod_small. lia.
  - apply Z.mod_small. lia.
Qed.

Lemma microseconds_range t : valid_time t -> 0 <= microseconds_of t < day.
Proof. unfold valid_time, microseconds_of, day. lia. Qed.

(** The test of the loop is the test of the arc. *)
Lemma window_is_arc {A} now (period : Period A) :
  valid_time now -> valid_time (start_time_obj period) -> valid_time (end_time_obj period) ->
  (if time_le (start_time_obj period) (end_time_obj period)
   then time_le (start_time_obj period) now && time_lt now (end_time_obj period)
   else time_ge now (start_time_obj period) || time_lt now (end_time_obj period))
  = on_arc now period.
Proof.
  intros Hn Hs He. unfold time_le, time_lt, time_ge, on_arc.
  rewrite !time_cmp_microseconds by done.
  pose proof (microseconds_range _ Hn). pose proof (microseconds_range _ Hs).
  pose proof (microseconds_range _ He).
  set (now_us := microseconds_of now) in *.
  set (start_us := microseconds_of (start_time_obj period)) in *.
  set (end_us := microseconds_of (end_time_obj period)) in *.
  rewrite !mod_wrap by lia.
  destruct (Z.compare_spec start_us end_us), (Z.compare_spec start_us now_us),
    (Z.compare_spec now_us end_us), (Z.compare_spec now_us start_us),
    (Z.ltb_spec (now_us - start_us) 0), (Z.ltb_spec (end_us - start_us) 0);
    cbn; try lia; symmetry;
    first [apply Z.ltb_lt; lia | apply Z.ltb_ge; lia].
Qed.

(** X14.  For times of the day, [_get_current_period_info] returns the
    first period on whose arc of the 24-hour clock, from its start
    (included) forward to its end (excluded), the current time lies, and
    [None] when there is none: a period may run over midnight, and the
    order of the list decides between overlapping periods. *)
Theorem X14_first_period_on_the_clock {A} (now_time : PyTime)
    (time_periods : list (Period A)) :
  valid_time now_time ->
  Forall (fun period => valid_time (start_time_obj period)
                        /\ valid_time (end_time_obj period)) time_periods ->
  _get_current_period_info now_time time_periods
  = List.find (on_arc now_time) time_periods.
Proof.
  intros Hn Hall. induction Hall as [|period rest [Hs He] _ IH]; [done|].
  cbn [_get_current_period_info List.find].
  rewrite <- (window_is_arc now_time period Hn Hs He).
  destruct (time_le (start_time_obj period) (end_time_obj period)).
  - by destruct (time_le _ _ && time_lt _ _).
  - by destruct (time_ge _ _ || time_lt _ _).
Qed.

(** X15.  A period whose start and end are the same time is never
    returned, at any time of the day: it stands for an empty window, not
    for the whole day. *)
Theorem X15_equal_start_and_end_never_match {A} (now_time : PyTime)
    (time_periods : list (Period A)) (period : Period A) :
  _get_current_period_info now_time time_periods = Some period ->
  start_time_obj period <> end_time_obj period.
Proof.
  induction time_periods as [|p rest IH]; [done|].
  cbn [_get_current_period_info].
  assert (Hp : start_time_obj p = end_time_obj p ->
               time_le (start_time_obj p) (end_time_obj p) = true
               /\ time_le (start_time_obj p) now_time && time_lt now_time (end_time_obj p)
                  = false).
  { intros <-. unfold time_le, time_lt.
    rewrite (proj2 (time_cmp_eq _ _) eq_refl).
    rewrite (time_cmp_antisym (start_time_obj p) now_time).
    by destruct (time_cmp (start_time_obj p) now_time). }
  destruct (time_le (start_time_obj p) (end_time_obj p)) eqn:Hle.
  - destruct (time_le _ _ && time_lt _ _) eqn:Hin; [|done].
    intros ?; simplify_eq. intros Heq. destruct (Hp Heq) as [_ ?]. congruence.
  - destruct (time_ge _ _ || time_lt _ _); [|done].
    intros ?; simplify_eq. intros Heq. destruct (Hp Heq) as [? _]. congruence.
Qed.

(** X16.  Two periods of which each starts where the other ends, at two
    different times, cover the day: at every time one of them is
    returned. *)
Theorem X16_two_complementary_periods_cover_the_day {A} (now_time s e : PyTime) (a b : A) :
  s <> e ->
  is_Some (_get_current_period_info now_time [mkPeriod s e a; mkPeriod e s b]).
Proof.
  intros Hne. cbn. unfold time_le, time_lt, time_ge.
  assert (Hse : time_cmp s e <> Eq) by (by rewrite time_cmp_eq).
  rewrite (time_cmp_antisym s e), (time_cmp_antisym s now_time),
    (time_cmp_antisym e now_time).
  destruct (time_cmp s e); [done|..];
    destruct (time_cmp s now_time), (time_cmp e now_time); cbn; by eexists.
Qed.

(* ===================================================================== *)
(** * The further properties at sample inputs *)
(* ===================================================================== *)

(** X4 at a text with a size tag around its first letter. *)
Lemma X4_witness :
  map text [mkSegment "A" MoreSamples.size_20; mkSegment "B" Samples.black_40]
    `sublist_of` Tokenizer.re_split "[size=20]A[/size]B"
  /\ Forall (fun seg => text seg <> "")
       [mkSegment "A" MoreSamples.size_20; mkSegment "B" Samples.black_40].
Proof.
  apply (X4_segments_are_parts (B := Builtins.ascii_builtins)
           "[size=20]A[/size]B" Samples.black_40).
  vm_compute. reflexivity.
Defined.

(** X5 at a closing tag of an unknown attribute. *)
Lemma X5_witness :
  _parse_rich_text (B := Builtins.ascii_builtins) "[/x]" Samples.black_40 = Some [].
Proof.
  apply (X5_bracketed_text_is_swallowed (B := Builtins.ascii_builtins)).
  - vm_compute. reflexivity.
  - vm_compute. reflexivity.
Defined.

(** X6 at an orange with an alpha field. *)
Lemma X6_witness :
  hex_to_bgr (B := Builtins.ascii_builtins) ("#" ++ "ff" ++ "80" ++ "00" ++ "cc")
  = Some (0, 128, 255).
Proof.
  exact (X6_hex_to_bgr_reads_rrggbb (B := Builtins.ascii_builtins)
           "#" "ff" "80" "00" "cc" eq_refl eq_refl eq_refl eq_refl eq_refl).
Defined.

(** X7 at the three-digit white. *)
Lemma X7_witness : hex_to_bgr (B := Builtins.ascii_builtins) "#fff" = None.
Proof.
  apply (X7_hex_to_bgr_short_colour (B := Builtins.ascii_builtins)).
  - reflexivity.
  - vm_compute. lia.
Defined.

(** X8 at [glyph_2x2] placed across the lower left corner of [image_3x4]:
    only its coverage byte 255 lands on the image. *)
Lemma X8_witness :
  exists img',
    _draw_glyph Samples.image_3x4 Samples.glyph_2x2 (-1) 2 (200, 201, 202) = Some img'
    /\ pixel_at img' 2 0 = Some (uint8_of_Z 200, uint8_of_Z 201, uint8_of_Z 202)
    /\ pixel_at img' 2 1 = pixel_at Samples.image_3x4 2 1.
Proof.
  destruct (X8_draw_glyph_blends_each_pixel Samples.image_3x4 Samples.glyph_2x2 (-1) 2
              200 201 202 wf_image_3x4 eq_refl ltac:(lia) ltac:(lia) ltac:(lia))
    as (img' & Hres & _ & _ & _ & Hpix).
  exists img'. split; [exact Hres|]. split.
  - rewrite Hpix. vm_compute. reflexivity.
  - rewrite Hpix. vm_compute. reflexivity.
Defined.

(** X9 at a blank bitmap in the middle of [image_3x4]. *)
Lemma X9_witness :
  _draw_glyph Samples.image_3x4 MoreSamples.blank_2x2 1 1 (1, 2, 3) = Some Samples.image_3x4.
Proof.
  apply (X9_transparent_glyph_changes_nothing Samples.image_3x4 MoreSamples.blank_2x2
           1 1 1 2 3 wf_image_3x4 eq_refl).
  - repeat constructor.
  - lia.
  - lia.
  - lia.
Defined.

(** X11 at an orange letter of the face [block_face] drawn at (1, 0) on
    [image_3x4]: the pixel in row 0 and column 2, which was (20, 21, 22),
    lies under the coverage byte 255 and takes the colour, and the image
    keeps its 3 rows of 4 pixels. *)
Lemma X11_witness :
  exists st,
    draw_text (B := Builtins.ascii_builtins) Samples.block_face Samples.image_3x4
      "[color=#ff8000]a" (1, 0) Samples.no_options None Samples.spacing_1_2 = Some st
    /\ pixel_at Samples.image_3x4 0 2 = Some (Samples.px 20)
    /\ pixel_at (image st) 0 2 = Some (uint8_of_Z 0, uint8_of_Z 128, uint8_of_Z 255)
    /\ wf_image (image st)
    /\ img_w (image st) = img_w Samples.image_3x4
    /\ img_h (image st) = img_h Samples.image_3x4.
Proof.
  eexists. split; [vm_compute; reflexivity|].
  split; [vm_compute; reflexivity|]. split; [vm_compute; reflexivity|].
  apply (X11_draw_text_keeps_shape (B := Builtins.ascii_builtins)
           Samples.block_face Samples.image_3x4 "[color=#ff8000]a" (1, 0)
           Samples.no_options None Samples.spacing_1_2 _ wf_image_3x4).
  vm_compute. reflexivity.
Defined.

(** X12 at a text of two lines with a tag. *)
Lemma X12_witness :
  exists segs,
    _parse_rich_text (B := Builtins.ascii_builtins)
      (PyStr.replace2 backslash "n" newline (String.append "a[size=20]" (String newline "b")))
      (default_style_of Samples.no_options Samples.spacing_1_2) = Some segs
    /\ map (fun d => d.1.1)
         [("a"%char, 0, 0); ("b"%char, 0, 14)]
       = visible_chars (join (map text segs)).
Proof.
  apply (X12_every_character_drawn_once (B := Builtins.ascii_builtins)
           (Builtins.mono_face 10 12) Samples.image_3x4
           (String.append "a[size=20]" (String newline "b")) (0, 0) Samples.no_options
           None Samples.spacing_1_2
           {| pen_x := 10; pen_y := 14; previous_char := Some "b"%char;
              image := Samples.image_3x4;
              drawn := [("a"%char, 0, 0); ("b"%char, 0, 14)] |}).
  vm_compute. reflexivity.
Defined.

(** X13 at a text whose second segment has the colour red: the first
    segment reads, the second does not. *)
Lemma X13_witness :
  draw_text (B := Builtins.ascii_builtins) Samples.block_face Samples.image_3x4
    "ab[color=red]c" (0, 0) Samples.no_options None Samples.spacing_1_2 = None.
Proof.
  apply (X13_unreadable_colour_or_gap_fails_the_render (B := Builtins.ascii_builtins)
           Samples.block_face Samples.image_3x4 "ab[color=red]c" (0, 0)
           Samples.no_options None Samples.spacing_1_2
           [mkSegment "ab" Samples.black_40;
            mkSegment "c" (mkStyle "red" 40 Samples.spacing_1_2)]
           (mkSegment "c" (mkStyle "red" 40 Samples.spacing_1_2))).
  - vm_compute. reflexivity.
  - right. left. reflexivity.
  - left. vm_compute. reflexivity.
Defined.

Lemma valid_at_23_30 : valid_time MoreSamples.at_23_30.
Proof. unfold valid_time. simpl. lia. Qed.

(** X14 at half past eleven in the evening, with a night that runs over
    midnight listed before the day. *)
Lemma X14_witness :
  _get_current_period_info MoreSamples.at_23_30 [MoreSamples.night; MoreSamples.daytime]
  = List.find (on_arc MoreSamples.at_23_30) [MoreSamples.night; MoreSamples.daytime].
Proof.
  apply X14_first_period_on_the_clock; [exact valid_at_23_30|].
  repeat constructor; unfold valid_time; simpl; lia.
Defined.

(** X15 at the same time and periods: the night is returned. *)
Lemma X15_witness :
  _get_current_period_info MoreSamples.at_23_30 [MoreSamples.night; MoreSamples.daytime]
  = Some MoreSamples.night
  /\ start_time_obj MoreSamples.night <> end_time_obj MoreSamples.night.
Proof.
  assert (H : _get_current_period_info MoreSamples.at_23_30
                [MoreSamples.night; MoreSamples.daytime] = Some MoreSamples.night)
    by (vm_compute; reflexivity).
  split; [exact H|].
  exact (X15_equal_start_and_end_never_match MoreSamples.at_23_30
           [MoreSamples.night; MoreSamples.daytime] MoreSamples.night H).
Defined.

(** X16 at a day from 6:00 to 22:00 and its night. *)
Lemma X16_witness :
  is_Some (_get_current_period_info MoreSamples.at_23_30
             [mkPeriod MoreSamples.at_6_00 MoreSamples.at_22_00 "day";
              mkPeriod MoreSamples.at_22_00 MoreSamples.at_6_00 "night"]).
Proof.
  apply X16_two_complementary_periods_cover_the_day. discriminate.
Defined.
